(** * Reveal track: schedule evaluator, countdown formatting, image store

    A shallow embedding of the reveal-track script (src/app.js, the upload
    variant, and src/unnamed/part_000, the URL-only variant) and the
    properties of its schedule evaluator, its countdown formatting, its
    persistence wrapper and its render / upload handlers.

    Modelling conventions.
    - A JavaScript Date is its time value: an integer number of
      milliseconds ([Z]); an invalid Date (time value NaN) is [None].
      Number arithmetic on these integers is exact (all values stay below
      2^53 in absolute value), so [Math.floor (a / b)] with [b > 0] is
      [Z.div] and [%] is [Z.rem].
    - Strings are [string] (bytes of the UTF-8 text).
    - Host services the script calls but does not define are parameters:
      the date parser behind [new Date(iso)] and [Intl.DateTimeFormat].
      [JSON.parse] / [JSON.stringify] are given by the [Json] module.
    - [imagesById] is a [gmap string string]; inherited properties of
      [Object.prototype] are not modelled. [localStorage] has no quota.
    - Tile ids are taken to be usable inside an attribute selector as they
      are (no quote or backslash), and [toUpperCase] acts on ASCII letters.
    - Every [new Date()] reads a clock; the n-th read of a handler run
      returns [clock n]. *)

From Stdlib Require Import ZArith String Ascii List Lia DecimalString.
From stdpp Require Import base option strings list gmap.

Open Scope string_scope.
Open Scope list_scope.
Open Scope Z_scope.

(** ** Host interface *)

Record Host := {
  (* [new Date(iso).getTime()], [None] when the result is NaN *)
  Date_parse : string -> option Z;
  (* [new Intl.DateTimeFormat(undefined, {...}).format(dt)] *)
  Intl_format : Z -> string
}.

(** ** Configuration data *)

Record Tile := {
  tile_id : string;
  tile_title : string;
  tile_rarity : string;
  tile_revealAt : string;
  tile_imageUrl : option string;   (* only in the URL-only variant *)
  tile_icon : option string
}.

(** [`${n}`] for an integral Number below 10^21. *)
Definition Number_toString (n : Z) : string :=
  NilZero.string_of_int (Z.to_int n).

(** [Array.prototype.findIndex]: index of the first element satisfying
    [p], [-1] when there is none. *)
Fixpoint findIndex_from {A} (p : A -> bool) (l : list A) (i : Z) : Z :=
  match l with
  | [] => -1
  | x :: l' => if p x then i else findIndex_from p l' (i + 1)
  end.

Definition findIndex {A} (p : A -> bool) (l : list A) : Z :=
  findIndex_from p l 0.

(** ** Completions *)

Inductive error := SyntaxError | TypeError | SecurityError | ReadError.

(** The outcome of running a piece of script: a value, or a thrown
    exception. *)
Inductive completion (A : Type) :=
  | Normal (a : A)
  | Throw (e : error).
Arguments Normal {A} a.
Arguments Throw {A} e.

Definition try_catch {A} (body : completion A) (handler : error -> completion A)
  : completion A :=
  match body with
  | Normal a => Normal a
  | Throw e => handler e
  end.

(** ** JSON texts

    [JSON.parse] and [JSON.stringify] after ECMA-262 / ECMA-404. Numbers
    keep their literal text; object members are a finite map (a repeated
    key keeps its last value). *)

Module Json.
#[warnings="-register-all"]
Inductive value :=
  | Null
  | Bool (b : bool)
  | Num (lexeme : string)
  | Str (s : string)
  | Arr (items : list value)
  | Obj (members : gmap string value).

Local Open Scope N_scope.

Definition quote_char : ascii := "034"%char.
Definition backslash : ascii := "092"%char.

Definition is_ws (c : ascii) : bool :=
  Ascii.eqb c " " || Ascii.eqb c "009" || Ascii.eqb c "010"
  || Ascii.eqb c "013".

Fixpoint skip_ws (s : string) : string :=
  match s with
  | String c rest => if is_ws c then skip_ws rest else s
  | EmptyString => s
  end.

Fixpoint strip_prefix (p s : string) : option string :=
  match p, s with
  | EmptyString, _ => Some s
  | String a p', String b s' =>
      if Ascii.eqb a b then strip_prefix p' s' else None
  | String _ _, EmptyString => None
  end.

Definition is_digit (c : ascii) : bool :=
  (48 <=? N_of_ascii c) && (N_of_ascii c <=? 57).

Definition hex_value (c : ascii) : option N :=
  let n := N_of_ascii c in
  if (48 <=? n) && (n <=? 57) then Some (n - 48)
  else if (97 <=? n) && (n <=? 102) then Some (n - 87)
  else if (65 <=? n) && (n <=? 70) then Some (n - 55)
  else None.

Definition hex4 (a b c d : ascii) : option N :=
  match hex_value a, hex_value b, hex_value c, hex_value d with
  | Some x, Some y, Some z, Some w =>
      Some (x * 4096 + y * 256 + z * 16 + w)
  | _, _, _, _ => None
  end.

(** The characters of a string literal after its opening quote, up to
    the closing quote: a raw byte ([inl]) or the UTF-16 code unit of a
    [\uXXXX] escape ([inr]). *)
Fixpoint scan_string (s : string) : option (list (ascii + N) * string) :=
  let item (x : ascii + N) (r : option (list (ascii + N) * string)) :=
    match r with
    | Some (items, rest) => Some (x :: items, rest)
    | None => None
    end in
  match s with
  | EmptyString => None
  | String c rest =>
      if Ascii.eqb c quote_char then Some ([], rest)
      else if Ascii.eqb c backslash then
        match rest with
        | EmptyString => None
        | String e rest' =>
            if Ascii.eqb e quote_char then item (inl quote_char) (scan_string rest')
            else if Ascii.eqb e backslash then item (inl backslash) (scan_string rest')
            else if Ascii.eqb e "/" then item (inl "/"%char) (scan_string rest')
            else if Ascii.eqb e "b" then item (inl "008"%char) (scan_string rest')
            else if Ascii.eqb e "f" then item (inl "012"%char) (scan_string rest')
            else if Ascii.eqb e "n" then item (inl "010"%char) (scan_string rest')
            else if Ascii.eqb e "r" then item (inl "013"%char) (scan_string rest')
            else if Ascii.eqb e "t" then item (inl "009"%char) (scan_string rest')
            else if Ascii.eqb e "u" then
              match rest' with
              | String h1 (String h2 (String h3 (String h4 rest''))) =>
                  match hex4 h1 h2 h3 h4 with
                  | Some cu => item (inr cu) (scan_string rest'')
                  | None => None
                  end
              | _ => None
              end
            else None
        end
      else if (N_of_ascii c <? 32) then None
      else item (inl c) (scan_string rest)
  end.

(** UTF-8 bytes of a code point (a lone surrogate is encoded like any
    other three-byte code point). *)
Definition utf8 (cp : N) : string :=
  let byte (n : N) := ascii_of_N n in
  if (cp <? 128) then String (byte cp) EmptyString
  else if (cp <? 2048) then
    String (byte (192 + cp / 64)) (String (byte (128 + cp mod 64)) EmptyString)
  else if (cp <? 65536) then
    String (byte (224 + cp / 4096))
      (String (byte (128 + (cp / 64) mod 64))
         (String (byte (128 + cp mod 64)) EmptyString))
  else
    String (byte (240 + cp / 262144))
      (String (byte (128 + (cp / 4096) mod 64))
         (String (byte (128 + (cp / 64) mod 64))
            (String (byte (128 + cp mod 64)) EmptyString))).

Definition is_high_surrogate (cu : N) : bool :=
  (55296 <=? cu) && (cu <? 56320).
Definition is_low_surrogate (cu : N) : bool :=
  (56320 <=? cu) && (cu <? 57344).

Fixpoint decode_items (items : list (ascii + N)) : string :=
  match items with
  | [] => EmptyString
  | inl c :: items' => String c (decode_items items')
  | inr cu :: items' =>
      match items' with
      | inr lo :: items'' =>
          if is_high_surrogate cu && is_low_surrogate lo then
            utf8 (65536 + (cu - 55296) * 1024 + (lo - 56320))
              +:+ decode_items items''
          else utf8 cu +:+ decode_items items'
      | _ => utf8 cu +:+ decode_items items'
      end
  end.

Fixpoint scan_digits (s : string) : string * string :=
  match s with
  | String c rest =>
      if is_digit c then
        let '(ds, rest') := scan_digits rest in (String c ds, rest')
      else (EmptyString, s)
  | EmptyString => (EmptyString, s)
  end.

Definition nonempty (s : string) : bool :=
  match s with EmptyString => false | String _ _ => true end.

(** A number literal: an optional minus sign, an integer part without
    leading zero, an optional fraction, an optional exponent. *)
Definition scan_number (s : string) : option (string * string) :=
  let '(sign, s1) :=
    match s with
    | String "-" r => ("-", r)
    | _ => (EmptyString, s)
    end in
  let int_part :=
    match s1 with
    | String "0" r => Some ("0", r)
    | _ => let '(ds, r) := scan_digits s1 in
           if nonempty ds then Some (ds, r) else None
    end in
  match int_part with
  | None => None
  | Some (ip, s2) =>
      let frac :=
        match s2 with
        | String "." r =>
            let '(ds, r') := scan_digits r in
            if nonempty ds then Some ("." +:+ ds, r') else None
        | _ => Some (EmptyString, s2)
        end in
      match frac with
      | None => None
      | Some (fp, s3) =>
          let exp :=
            match s3 with
            | String e r =>
                if Ascii.eqb e "e" || Ascii.eqb e "E" then
                  let '(sg, r1) :=
                    match r with
                    | String "+" r1 => ("+", r1)
                    | String "-" r1 => ("-", r1)
                    | _ => (EmptyString, r)
                    end in
                  let '(ds, r2) := scan_digits r1 in
                  if nonempty ds then Some (String e (sg +:+ ds), r2) else None
                else Some (EmptyString, s3)
            | EmptyString => Some (EmptyString, s3)
            end in
          match exp with
          | None => None
          | Some (ep, s4) => Some (sign +:+ ip +:+ fp +:+ ep, s4)
          end
      end
  end.

Fixpoint parse_value (fuel : nat) (s : string) : option (value * string) :=
  match fuel with
  | O => None
  | S fuel =>
      match skip_ws s with
      | EmptyString => None
      | String c rest as s' =>
          if Ascii.eqb c quote_char then
            match scan_string rest with
            | Some (items, rest') => Some (Str (decode_items items), rest')
            | None => None
            end
          else if Ascii.eqb c "[" then
            match skip_ws rest with
            | String "]" rest' => Some (Arr [], rest')
            | _ => parse_elements fuel rest []
            end
          else if Ascii.eqb c "{" then
            match skip_ws rest with
            | String "}" rest' => Some (Obj ∅, rest')
            | _ => parse_members fuel rest ∅
            end
          else
            match strip_prefix "null" s' with
            | Some rest' => Some (Null, rest')
            | None =>
            match strip_prefix "true" s' with
            | Some rest' => Some (Bool true, rest')
            | None =>
            match strip_prefix "false" s' with
            | Some rest' => Some (Bool false, rest')
            | None =>
            match scan_number s' with
            | Some (lexeme, rest') => Some (Num lexeme, rest')
            | None => None
            end end end end
      end
  end
with parse_elements (fuel : nat) (s : string) (acc : list value)
  : option (value * string) :=
  match fuel with
  | O => None
  | S fuel =>
      match parse_value fuel s with
      | None => None
      | Some (v, rest) =>
          match skip_ws rest with
          | String "," rest' => parse_elements fuel rest' (acc ++ [v])
          | String "]" rest' => Some (Arr (acc ++ [v]), rest')
          | _ => None
          end
      end
  end
with parse_members (fuel : nat) (s : string) (acc : gmap string value)
  : option (value * string) :=
  match fuel with
  | O => None
  | S fuel =>
      match skip_ws s with
      | String c rest =>
          if Ascii.eqb c quote_char then
            match scan_string rest with
            | None => None
            | Some (key, rest1) =>
                match skip_ws rest1 with
                | String ":" rest2 =>
                    match parse_value fuel rest2 with
                    | None => None
                    | Some (v, rest3) =>
                        let acc' := <[decode_items key := v]> acc in
                        match skip_ws rest3 with
                        | String "," rest4 => parse_members fuel rest4 acc'
                        | String "}" rest4 => Some (Obj acc', rest4)
                        | _ => None
                        end
                    end
                | _ => None
                end
            end
          else None
      | EmptyString => None
      end
  end.

(** [JSON.parse(text)] *)
Definition parse (text : string) : completion value :=
  match parse_value (2 * String.length text + 2)%nat text with
  | Some (v, rest) =>
      match skip_ws rest with
      | EmptyString => Normal v
      | String _ _ => Throw SyntaxError
      end
  | None => Throw SyntaxError
  end.

Definition hex_digit (n : N) : ascii :=
  if (n <? 10) then ascii_of_N (48 + n) else ascii_of_N (87 + n).

(** QuoteJSONString, one character. *)
Definition escape_char (c : ascii) : string :=
  let n := N_of_ascii c in
  if Ascii.eqb c quote_char then String backslash (String quote_char EmptyString)
  else if Ascii.eqb c backslash then String backslash (String backslash EmptyString)
  else if (n =? 8) then String backslash "b"
  else if (n =? 12) then String backslash "f"
  else if (n =? 10) then String backslash "n"
  else if (n =? 13) then String backslash "r"
  else if (n =? 9) then String backslash "t"
  else if (n <? 32) then
    String backslash
      (String "u" (String "0" (String "0"
         (String (hex_digit (n / 16)) (String (hex_digit (n mod 16)) EmptyString)))))
  else String c EmptyString.

Fixpoint escape (s : string) : string :=
  match s with
  | EmptyString => EmptyString
  | String c rest => escape_char c +:+ escape rest
  end.

Definition quote (s : string) : string :=
  String quote_char (escape s +:+ String quote_char EmptyString).

Fixpoint stringify_members (l : list (string * string)) : string :=
  match l with
  | [] => EmptyString
  | (k, v) :: l' =>
      quote k +:+ ":" +:+ quote v +:+
      match l' with
      | [] => EmptyString
      | _ :: _ => "," +:+ stringify_members l'
      end
  end.

(** [JSON.stringify(o)] for an object [o] whose own properties are the
    string-valued entries of [m]. *)
Definition stringify (m : gmap string string) : string :=
  "{" +:+ stringify_members (map_to_list m) +:+ "}".

(** The object with the string-valued properties of [m]. *)
Definition of_strings (m : gmap string string) : value := Obj (Str <$> m).

(** How [scan_string] reads back a character that [escape_char] wrote:
    a control character without a short escape comes back as a code
    unit, any other character as itself. *)
Definition item_of (c : ascii) : ascii + N :=
  let n := N_of_ascii c in
  if (n <? 32) && negb ((n =? 8) || (n =? 9) || (n =? 10) || (n =? 12) || (n =? 13))
  then inr n else inl c.

(** What follows a member in the text of an object. *)
Definition after_member (l : list (string * string)) (tail : string) : string :=
  match l with
  | [] => tail
  | _ :: _ => String "," (stringify_members l +:+ tail)
  end.

Definition add_member (acc : gmap string value) (kv : string * string)
  : gmap string value :=
  <[kv.1 := Str kv.2]> acc.
End Json.

(** ** Countdown arithmetic *)

Record Parts := { days : Z; hours : Z; mins : Z; secs : Z }.

(** The local [s] of [msToParts]. *)
Definition wholeSeconds (ms : Z) : Z := Z.max 0 (ms / 1000).

Definition msToParts (ms : Z) : Parts :=
  let s := wholeSeconds ms in
  {| days := s / 86400;
     hours := Z.rem s 86400 / 3600;
     mins := Z.rem s 3600 / 60;
     secs := Z.rem s 60 |}.

Definition countdownString (ms : Z) : string :=
  let '{| days := days; hours := hours; mins := mins; secs := secs |} :=
    msToParts ms in
  if 0 <? days then
    Number_toString days +:+ "d " +:+ Number_toString hours +:+ "h "
      +:+ Number_toString mins +:+ "m"
  else if 0 <? hours then
    Number_toString hours +:+ "h " +:+ Number_toString mins +:+ "m "
      +:+ Number_toString secs +:+ "s"
  else Number_toString mins +:+ "m " +:+ Number_toString secs +:+ "s".

(** The duration a [Parts] record stands for, in seconds. *)
Definition partsToSeconds (p : Parts) : Z :=
  days p * 86400 + hours p * 3600 + mins p * 60 + secs p.

(** The countdown of a tile as [updateCountdowns] computes it:
    [msToParts (revealAt.getTime() - now.getTime())]. *)
Definition remaining (revealAt now : Z) : Parts := msToParts (revealAt - now).

(** ** Schedule evaluator *)

Section Schedule.
Context (host : Host).

Definition parseTime (iso : string) : option Z := Date_parse host iso.

Definition isRevealed (tile : Tile) (now : Z) : bool :=
  match parseTime (tile_revealAt tile) with
  | None => false
  | Some t => t <=? now
  end.

(** [nextUnrevealedIndex] reads the global [TILES] and the clock. *)
Definition nextUnrevealedIndex (TILES : list Tile) (now : Z) : Z :=
  findIndex (fun t => negb (isRevealed t now)) TILES.
End Schedule.

(** ** Reference host

    A host whose date parser accepts the ECMAScript date-time string
    format [YYYY-MM-DDTHH:mm:ss] with an optional [.sss] and a zone
    ([Z], [+HH:mm], [-HH:mm] or none, read as local time), and nothing
    else; it is used to run the script on concrete inputs. *)

Module Iso.
Definition digit (c : ascii) : option Z :=
  if Json.is_digit c then Some (Z.of_N (N_of_ascii c) - 48) else None.

(** [n] decimal digits at the head of [s]. *)
Fixpoint number (n : nat) (acc : Z) (s : string) : option (Z * string) :=
  match n with
  | O => Some (acc, s)
  | S n' =>
      match s with
      | String c rest =>
          match digit c with
          | Some d => number n' (acc * 10 + d) rest
          | None => None
          end
      | EmptyString => None
      end
  end.

Definition expect (c : ascii) (s : string) : option string :=
  match s with
  | String c' rest => if Ascii.eqb c c' then Some rest else None
  | EmptyString => None
  end.

Definition is_leap (y : Z) : bool :=
  ((y mod 4 =? 0) && negb (y mod 100 =? 0)) || (y mod 400 =? 0).

Definition days_in_month (y m : Z) : Z :=
  if m =? 2 then (if is_leap y then 29 else 28)
  else if (m =? 4) || (m =? 6) || (m =? 9) || (m =? 11) then 30
  else 31.

(** Days from 1970-01-01 to the civil date [y-m-d]. *)
Definition days_from_civil (y m d : Z) : Z :=
  let y' := if m <=? 2 then y - 1 else y in
  let era := y' / 400 in
  let yoe := y' - era * 400 in
  let mp := (m + 9) mod 12 in
  let doy := (153 * mp + 2) / 5 + d - 1 in
  let doe := yoe * 365 + yoe / 4 - yoe / 100 + doy in
  era * 146097 + doe - 719468.

(** Minutes east of UTC, and what is left of the text. *)
Definition zone (local_offset : Z) (s : string) : option Z :=
  match s with
  | EmptyString => Some local_offset
  | String c rest =>
      if Ascii.eqb c "Z" then
        match rest with EmptyString => Some 0 | String _ _ => None end
      else if Ascii.eqb c "+" || Ascii.eqb c "-" then
        '(h, s1) ← number 2 0 rest;
        s2 ← expect ":" s1;
        '(m, s3) ← number 2 0 s2;
        match s3 with
        | EmptyString =>
            if (h <? 24) && (m <? 60) then
              Some (if Ascii.eqb c "+" then h * 60 + m else - (h * 60 + m))
            else None
        | String _ _ => None
        end
      else None
  end.

Definition parse (local_offset : Z) (s : string) : option Z :=
  '(y, s) ← number 4 0 s;
  s ← expect "-" s;
  '(mo, s) ← number 2 0 s;
  s ← expect "-" s;
  '(d, s) ← number 2 0 s;
  s ← expect "T" s;
  '(h, s) ← number 2 0 s;
  s ← expect ":" s;
  '(mi, s) ← number 2 0 s;
  s ← expect ":" s;
  '(sec, s) ← number 2 0 s;
  '(ms, s) ← match expect "." s with
              | Some s' => number 3 0 s'
              | None => Some (0, s)
              end;
  off ← zone local_offset s;
  if (1 <=? mo) && (mo <=? 12) && (1 <=? d) && (d <=? days_in_month y mo)
     && (h <? 24) && (mi <? 60) && (sec <? 60)
  then
    Some ((((days_from_civil y mo d * 24 + h) * 60 + mi - off) * 60 + sec)
            * 1000 + ms)
  else None.
End Iso.

(** The reference host: UTC+1 local time, instants printed as their
    millisecond count. *)
Definition ref_host : Host :=
  {| Date_parse := Iso.parse 60; Intl_format := Number_toString |}.

(** ** Document model

    An element keeps its tag, its attributes in the order they were set
    (the properties [className], [src], [alt] and [style.*] are kept as
    attributes), its event listeners and its children. Text assigned
    through [innerHTML] is taken to be free of markup characters. *)

Inductive handler := OpenTileModal (tile : Tile).

#[warnings="-register-all"]
Inductive node :=
  | Text (data : string)
  | Element (tag : string) (attrs : list (string * string))
      (listeners : list (string * handler)) (children : list node).

Definition createElement (tag : string) : node := Element tag [] [] [].

Fixpoint set_attr (k v : string) (attrs : list (string * string))
  : list (string * string) :=
  match attrs with
  | [] => [(k, v)]
  | (k', v') :: rest =>
      if String.eqb k k' then (k, v) :: rest else (k', v') :: set_attr k v rest
  end.

Definition setAttribute (k v : string) (n : node) : node :=
  match n with
  | Element tag attrs ls ch => Element tag (set_attr k v attrs) ls ch
  | Text _ => n
  end.

Definition set_className (c : string) (n : node) : node := setAttribute "class" c n.

(** The child list a text makes: nothing for the empty string. *)
Definition text_nodes (s : string) : list node :=
  match s with
  | EmptyString => []
  | String _ _ => [Text s]
  end.

Definition set_children (ch : list node) (n : node) : node :=
  match n with
  | Element tag attrs ls _ => Element tag attrs ls ch
  | Text _ => n
  end.

(** [n.textContent = s] *)
Definition set_textContent (s : string) (n : node) : node :=
  match n with
  | Element _ _ _ _ => set_children (text_nodes s) n
  | Text _ => Text s
  end.

Definition appendChild (child parent : node) : node :=
  match parent with
  | Element tag attrs ls ch => Element tag attrs ls (ch ++ [child])
  | Text _ => parent
  end.

Definition addEventListener (ev : string) (h : handler) (n : node) : node :=
  match n with
  | Element tag attrs ls ch => Element tag attrs (ls ++ [(ev, h)]) ch
  | Text _ => n
  end.

Definition children_of (n : node) : list node :=
  match n with
  | Element _ _ _ ch => ch
  | Text _ => []
  end.

Fixpoint get_attr (k : string) (attrs : list (string * string)) : option string :=
  match attrs with
  | [] => None
  | (k', v) :: rest => if String.eqb k k' then Some v else get_attr k rest
  end.

(** The attribute selector [[k="v"]]. *)
Definition matches_attr (k v : string) (n : node) : bool :=
  match n with
  | Element _ attrs _ _ =>
      match get_attr k attrs with
      | Some v' => String.eqb v v'
      | None => false
      end
  | Text _ => false
  end.

(** Apply [f] to the first node, in document order, that satisfies [p];
    [None] when no node does ([querySelector] returned [null]). *)
Fixpoint update_first (p : node -> bool) (f : node -> node) (n : node)
  : option node :=
  if p n then Some (f n)
  else
    match n with
    | Text _ => None
    | Element tag attrs ls ch =>
        let fix among (l : list node) : option (list node) :=
          match l with
          | [] => None
          | c :: l' =>
              match update_first p f c with
              | Some c' => Some (c' :: l')
              | None =>
                  match among l' with
                  | Some l'' => Some (c :: l'')
                  | None => None
                  end
              end
          end in
        match among ch with
        | Some ch' => Some (Element tag attrs ls ch')
        | None => None
        end
    end.

Fixpoint update_first_among (p : node -> bool) (f : node -> node)
  (l : list node) : option (list node) :=
  match l with
  | [] => None
  | c :: l' =>
      match update_first p f c with
      | Some c' => Some (c' :: l')
      | None =>
          match update_first_among p f l' with
          | Some l'' => Some (c :: l'')
          | None => None
          end
      end
  end.

(** Some text node below [n] carries exactly [s]. *)
Fixpoint contains_text (s : string) (n : node) : bool :=
  match n with
  | Text data => String.eqb s data
  | Element _ _ _ ch =>
      (fix any (l : list node) : bool :=
         match l with
         | [] => false
         | c :: l' => contains_text s c || any l'
         end) ch
  end.

(** ** Script state *)

(** [window.localStorage]: unavailable (every access throws), or the
    stored items. *)
Inductive LocalStorage :=
  | Denied
  | Items (items : gmap string string).

Definition getItem (ls : LocalStorage) (key : string) : completion (option string) :=
  match ls with
  | Denied => Throw SecurityError
  | Items items => Normal (items !! key)
  end.

Definition setItem (ls : LocalStorage) (key value : string) : completion LocalStorage :=
  match ls with
  | Denied => Throw SecurityError
  | Items items => Normal (Items (<[key := value]> items))
  end.

Record Modal := {
  modalKicker : string;
  modalTitle : string;
  modalRarity : string;
  modalReveal : string;
  modalStatus : string;
  modalPreview : list node;
  modalUploadBtn_disabled : bool;
  modalUploadBtn_text : string;
  modalUploadBtn_display : string;
  modalBackdrop_open : bool;
  modalBackdrop_ariaHidden : string
}.

Record FilePicker := {
  picker_value : string;
  picker_clicks : nat            (* calls of [filePicker.click()] *)
}.

Record state := {
  imagesById : gmap string string;
  activeTileId : option string;
  localStorage : LocalStorage;
  trackRow : list node;          (* children of [#trackRow] *)
  trackHint : string;
  modal : Modal;
  filePicker : FilePicker
}.

Definition set_imagesById (m : gmap string string) (st : state) : state :=
  {| imagesById := m; activeTileId := activeTileId st;
     localStorage := localStorage st; trackRow := trackRow st;
     trackHint := trackHint st; modal := modal st; filePicker := filePicker st |}.

Definition set_activeTileId (a : option string) (st : state) : state :=
  {| imagesById := imagesById st; activeTileId := a;
     localStorage := localStorage st; trackRow := trackRow st;
     trackHint := trackHint st; modal := modal st; filePicker := filePicker st |}.

Definition set_localStorage (ls : LocalStorage) (st : state) : state :=
  {| imagesById := imagesById st; activeTileId := activeTileId st;
     localStorage := ls; trackRow := trackRow st;
     trackHint := trackHint st; modal := modal st; filePicker := filePicker st |}.

Definition set_trackRow (row : list node) (st : state) : state :=
  {| imagesById := imagesById st; activeTileId := activeTileId st;
     localStorage := localStorage st; trackRow := row;
     trackHint := trackHint st; modal := modal st; filePicker := filePicker st |}.

Definition set_trackHint (h : string) (st : state) : state :=
  {| imagesById := imagesById st; activeTileId := activeTileId st;
     localStorage := localStorage st; trackRow := trackRow st;
     trackHint := h; modal := modal st; filePicker := filePicker st |}.

Definition set_modal (m : Modal) (st : state) : state :=
  {| imagesById := imagesById st; activeTileId := activeTileId st;
     localStorage := localStorage st; trackRow := trackRow st;
     trackHint := trackHint st; modal := m; filePicker := filePicker st |}.

Definition set_filePicker (p : FilePicker) (st : state) : state :=
  {| imagesById := imagesById st; activeTileId := activeTileId st;
     localStorage := localStorage st; trackRow := trackRow st;
     trackHint := trackHint st; modal := modal st; filePicker := p |}.

(** A run of a handler: the script state and the number of clock reads
    made so far. A run ends with a value, with an uncaught exception, or
    is cut where a render would nest deeper than the fuel allows (the
    script itself has no such bound). *)
Record world := { page : state; reads : nat }.

Inductive result (A : Type) :=
  | Ok (a : A) (w : world)
  | Err (e : error) (w : world)   (* uncaught exception *)
  | OutOfFuel (w : world).        (* cut: recursion deeper than the fuel *)
Arguments Ok {A} a w.
Arguments Err {A} e w.
Arguments OutOfFuel {A} w.

Definition M (A : Type) : Type := world -> result A.

(** The world a run ended in, however it ended. *)
Definition final_world {A} (r : result A) : world :=
  match r with
  | Ok _ w => w
  | Err _ w => w
  | OutOfFuel w => w
  end.

Definition ret {A} (a : A) : M A := fun w => Ok a w.

Definition bind {A B} (m : M A) (k : A -> M B) : M B :=
  fun w =>
    match m w with
    | Ok a w' => k a w'
    | Err e w' => Err e w'
    | OutOfFuel w' => OutOfFuel w'
    end.

Notation "'let*' x := m 'in' k" := (bind m (fun x => k))
  (at level 10, x name, m at level 100, k at level 200, only parsing).
Notation "m ;;; k" := (bind m (fun _ => k))
  (at level 100, k at level 200, right associativity, only parsing).

Definition get : M state := fun w => Ok (page w) w.

Definition modify (f : state -> state) : M unit :=
  fun w => Ok tt {| page := f (page w); reads := reads w |}.

Fixpoint for_each {A} (l : list A) (body : A -> M unit) : M unit :=
  match l with
  | [] => ret tt
  | x :: l' => body x ;;; for_each l' body
  end.

(** A value used as a condition. *)
Definition truthy (s : option string) : bool :=
  match s with
  | Some (String _ _) => true
  | _ => false
  end.

(** A value used as a property key: [null] becomes the key [null]. *)
Definition property_key (s : option string) : string :=
  match s with
  | Some k => k
  | None => "null"
  end.

(** [s || fallback] *)
Definition or_else (s : option string) (fallback : string) : string :=
  match s with
  | Some (String c r) => String c r
  | _ => fallback
  end.

(** [c.toUpperCase()] for one character. *)
Definition to_upper (c : ascii) : ascii :=
  let n := N_of_ascii c in
  if (97 <=? n)%N && (n <=? 122)%N then ascii_of_N (n - 32) else c.

Fixpoint startsWith (p s : string) : bool :=
  match p, s with
  | EmptyString, _ => true
  | String a p', String b s' => Ascii.eqb a b && startsWith p' s'
  | String _ _, EmptyString => false
  end.

Definition STORAGE_KEY : string := "reveal_track_images_v1".

(** The two scripts: src/app.js (images uploaded per tile) and
    src/unnamed/part_000 (a fixed image URL per tile). *)
Inductive Variant := Upload | UrlOnly.

Record File := { file_type : string }.

(** What the synchronous part of the file-picker handler decides. *)
Inductive change_outcome :=
  | Ignored
  | AwaitRead (file : File).

Definition loadImages (ls : LocalStorage) : completion Json.value :=
  try_catch
    (match getItem ls STORAGE_KEY with
     | Throw e => Throw e
     | Normal raw =>
         if truthy raw then Json.parse (default EmptyString raw)
         else Normal (Json.Obj ∅)
     end)
    (fun _ => Normal (Json.Obj ∅)).

Definition saveImages : M unit :=
  fun w =>
    match setItem (localStorage (page w)) STORAGE_KEY
            (Json.stringify (imagesById (page w))) with
    | Normal ls => Ok tt {| page := set_localStorage ls (page w); reads := reads w |}
    | Throw e => Err e w
    end.

Definition rarityLabel (r : string) : string :=
  match r with
  | EmptyString => EmptyString
  | String c rest => String (to_upper c) rest
  end.

Definition rarityClass (r : string) : string :=
  if String.eqb r "common" then "r-common"
  else if String.eqb r "rare" then "r-rare"
  else if String.eqb r "epic" then "r-epic"
  else if String.eqb r "legendary" then "r-legendary"
  else "r-common".

Definition rarityBadgeClass (r : string) : string := "badge rarity-" +:+ r.

(** [el.firstChild && (el.firstChild.textContent = s)] *)
Definition set_firstChild_text (s : string) (n : node) : node :=
  match n with
  | Element tag attrs ls (c :: rest) =>
      Element tag attrs ls (set_textContent s c :: rest)
  | _ => n
  end.

Section Script.
Context (host : Host) (clock : nat -> Z) (TILES : list Tile).
Context (variant : Variant).

(** [new Date()] *)
Definition new_Date : M Z :=
  fun w => Ok (clock (reads w)) {| page := page w; reads := S (reads w) |}.

Definition formatLocal (dt : Z) : string := Intl_format host dt.

(** [revealAt ? now >= revealAt : false] *)
Definition reached (revealAt : option Z) (now : Z) : bool :=
  match revealAt with
  | Some t => t <=? now
  | None => false
  end.

(** The art of a tile, as [renderTrack] and [openTileModal] build it:
    an [img] when the source is truthy, else a [div] with the icon. *)
Definition art_content (src : option string) (alt : string) (icon : option string)
    (fallback : string) (placeholder_class : option string) (fontSize : option string)
  : node :=
  if truthy src then
    let img := createElement "img" in
    let img := setAttribute "src" (default EmptyString src) img in
    setAttribute "alt" alt img
  else
    let ph := createElement "div" in
    let ph := match placeholder_class with
              | Some c => set_className c ph
              | None => ph
              end in
    let ph := match fontSize with
              | Some f => setAttribute "style.fontSize" f ph
              | None => ph
              end in
    set_textContent (or_else icon fallback) ph.

(** The body of the loop of [renderTrack] in src/app.js. *)
Definition render_tile_upload (now : Z) (images : gmap string string)
    (tile : Tile) : node :=
  let revealAt := parseTime host (tile_revealAt tile) in
  let revealed := reached revealAt now in
  let hasImage := truthy (images !! tile_id tile) in
  let el := createElement "div" in
  let el := set_className
              ("tile " +:+ rarityClass (tile_rarity tile) +:+ " "
                 +:+ (if revealed then "revealed" else "locked")) el in
  let el := setAttribute "data-id" (tile_id tile) el in
  let inner := set_className "tile-inner" (createElement "div") in
  let head := set_className "tile-head" (createElement "div") in
  let badges := set_className "badges" (createElement "div") in
  let rarity := set_className (rarityBadgeClass (tile_rarity tile))
                  (createElement "div") in
  let rarity := set_textContent (rarityLabel (tile_rarity tile)) rarity in
  let status := set_className "badge status" (createElement "div") in
  let status := set_textContent
                  (if revealed then (if hasImage then "IMAGE SET" else "REVEALED")
                   else "LOCKED") status in
  let badges := appendChild rarity badges in
  let badges := appendChild status badges in
  let head := appendChild badges head in
  let title := set_className "tile-title" (createElement "div") in
  let title := set_textContent (tile_title tile) title in
  let sub := set_className "tile-sub" (createElement "div") in
  let sub := set_textContent
               (if revealed then "Click to upload / replace tile image."
                else "Reveals automatically at the scheduled time.") sub in
  let art := set_className "art" (createElement "div") in
  let art := appendChild
               (art_content (images !! tile_id tile)
                  (tile_title tile +:+ " image") (tile_icon tile) "🎁"
                  (Some "placeholder") None) art in
  let foot := set_className "tile-foot" (createElement "div") in
  let time := set_className "time" (createElement "div") in
  let time := set_children
                [Text "Reveal ";
                 set_children
                   (text_nodes (match revealAt with
                                | Some t => formatLocal t
                                | None => "Invalid time"
                                end))
                   (createElement "span")] time in
  let cta := set_className "cta" (createElement "div") in
  let cta := set_textContent (if revealed then "OPEN" else "COUNTDOWN") cta in
  let foot := appendChild time foot in
  let foot := appendChild cta foot in
  let inner := appendChild head inner in
  let inner := appendChild title inner in
  let inner := appendChild sub inner in
  let inner := appendChild art inner in
  let inner := appendChild foot inner in
  let el := appendChild inner el in
  let el :=
    if negb revealed then
      let overlay := set_className "locked-overlay" (createElement "div") in
      let lt := set_className "locked-title" (createElement "div") in
      let lt := set_textContent "LOCKED" lt in
      let cd := set_className "countdown" (createElement "div") in
      let cd := setAttribute "data-countdown-for" (tile_id tile) cd in
      let help := set_textContent "Reveals in" (createElement "small") in
      let cd := appendChild help cd in
      let overlay := appendChild lt overlay in
      let overlay := appendChild cd overlay in
      appendChild overlay el
    else el in
  addEventListener "click" (OpenTileModal tile) el.

(** The content [`<small>Reveals in</small>${countdownString(ms)}`]. *)
Definition countdown_html (ms : Z) : list node :=
  set_textContent "Reveals in" (createElement "small")
    :: text_nodes (countdownString ms).

(** The body of the loop of [renderTrack] in src/unnamed/part_000. *)
Definition render_tile_url (now : Z) (tile : Tile) : node :=
  let revealAt := parseTime host (tile_revealAt tile) in
  let revealed := reached revealAt now in
  let coverUrl := if revealed then or_else (tile_imageUrl tile) EmptyString
                  else EmptyString in
  let el := createElement "div" in
  let el := set_className
              ("tile " +:+ rarityClass (tile_rarity tile) +:+ " "
                 +:+ (if revealed then "revealed" else "locked")) el in
  let el := setAttribute "data-id" (tile_id tile) el in
  let art := set_className "art art-only" (createElement "div") in
  let art := appendChild
               (art_content (Some coverUrl) (tile_title tile +:+ " cover")
                  (tile_icon tile) "⬡" (Some "placeholder") None) art in
  let el := appendChild art el in
  let el :=
    if negb revealed then
      let overlay := set_className "locked-overlay" (createElement "div") in
      let cd := set_className "countdown big" (createElement "div") in
      let cd := setAttribute "data-countdown-for" (tile_id tile) cd in
      let cd := set_children
                  (countdown_html
                     ((match revealAt with Some t => t | None => now end) - now))
                  cd in
      let overlay := appendChild cd overlay in
      appendChild overlay el
    else el in
  addEventListener "click" (OpenTileModal tile) el.

Definition render_tile (now : Z) (images : gmap string string) (tile : Tile)
  : node :=
  match variant with
  | Upload => render_tile_upload now images tile
  | UrlOnly => render_tile_url now tile
  end.

Definition hint_text (now : Z) : string :=
  match variant with
  | Upload => "Now: " +:+ formatLocal now +:+ " • Reveals use your device time"
  | UrlOnly => "Now: " +:+ formatLocal now +:+ " CET"
  end.

(** What [updateCountdowns] does to the countdown element of a tile. *)
Definition countdown_update (revealAt : option Z) (now : Z) (el : node) : node :=
  match revealAt with
  | None => set_textContent "Invalid time" el
  | Some t =>
      set_children (countdown_html (t - now))
        (set_firstChild_text "Reveals in" el)
  end.

(** The body of the loop of [updateCountdowns], for one tile; the call
    of [renderTrack] it makes is left open. *)
Definition countdown_step (renderTrack : M unit) (now : Z) (tile : Tile)
  : M unit :=
  let* st := get in
  let revealAt := parseTime host (tile_revealAt tile) in
  match update_first_among
          (matches_attr "data-countdown-for" (tile_id tile))
          (countdown_update revealAt now) (trackRow st) with
  | None => ret tt
  | Some row =>
      modify (set_trackRow row) ;;;
      match revealAt with
      | None => ret tt
      | Some t => if t - now <=? 0 then renderTrack else ret tt
      end
  end.

Definition updateCountdowns_with (renderTrack : M unit) : M unit :=
  let* now := new_Date in
  for_each TILES (countdown_step renderTrack now).

(** The body of the loop of [renderTrack], for one tile. *)
Definition append_tile (now : Z) (tile : Tile) : M unit :=
  let* st := get in
  let el := render_tile now (imagesById st) tile in
  modify (set_trackRow (trackRow st ++ [el])).

(** [renderTrack]; [fuel] bounds the depth of the renders that
    [updateCountdowns] starts in turn. *)
Fixpoint renderTrack (fuel : nat) : M unit :=
  match fuel with
  | O => fun w => OutOfFuel w
  | S fuel' =>
      modify (set_trackRow []) ;;;
      let* now := new_Date in
      modify (set_trackHint (hint_text now)) ;;;
      for_each TILES (append_tile now) ;;;
      updateCountdowns_with (renderTrack fuel')
  end.

Definition updateCountdowns (fuel : nat) : M unit :=
  updateCountdowns_with (renderTrack fuel).

Definition openTileModal (tile : Tile) : M unit :=
  modify (set_activeTileId (Some (tile_id tile))) ;;;
  let* now := new_Date in
  let* st := get in
  let revealAt := parseTime host (tile_revealAt tile) in
  let revealed := reached revealAt now in
  let preview :=
    match variant with
    | Upload =>
        art_content (imagesById st !! tile_id tile)
          (tile_title tile +:+ " image") (tile_icon tile) "🎁" None (Some "56px")
    | UrlOnly =>
        art_content
          (if revealed then tile_imageUrl tile else None)
          (tile_title tile +:+ " cover") (tile_icon tile) "⬡" None (Some "56px")
    end in
  let m := modal st in
  modify (set_modal
    {| modalKicker := "TILE • " +:+ tile_id tile;
       modalTitle := tile_title tile;
       modalRarity := rarityLabel (tile_rarity tile);
       modalReveal := match revealAt with
                      | Some t => formatLocal t
                      | None => "Invalid time"
                      end;
       modalStatus := if revealed then "Revealed" else "Locked";
       modalPreview := [preview];
       modalUploadBtn_disabled :=
         match variant with
         | Upload => negb revealed
         | UrlOnly => modalUploadBtn_disabled m
         end;
       modalUploadBtn_text :=
         match variant with
         | Upload => if revealed then "Upload / Replace Image"
                     else "Locked (wait for reveal)"
         | UrlOnly => modalUploadBtn_text m
         end;
       modalUploadBtn_display :=
         match variant with
         | Upload => modalUploadBtn_display m
         | UrlOnly => "none"
         end;
       modalBackdrop_open := true;
       modalBackdrop_ariaHidden := "false" |}).

Definition closeModal : M unit :=
  modify (fun st =>
    let m := modal st in
    set_activeTileId None
      (set_modal
         {| modalKicker := modalKicker m; modalTitle := modalTitle m;
            modalRarity := modalRarity m; modalReveal := modalReveal m;
            modalStatus := modalStatus m; modalPreview := modalPreview m;
            modalUploadBtn_disabled := modalUploadBtn_disabled m;
            modalUploadBtn_text := modalUploadBtn_text m;
            modalUploadBtn_display := modalUploadBtn_display m;
            modalBackdrop_open := false;
            modalBackdrop_ariaHidden := "true" |} st)).

(** [TILES.find(t => t.id === activeTileId)] *)
Definition find_active (active : option string) : option Tile :=
  List.find (fun t => match active with
                      | Some a => String.eqb (tile_id t) a
                      | None => false
                      end) TILES.

(** The click handler of [modalUploadBtn]. *)
Definition modalUploadBtn_click : M unit :=
  let* st := get in
  if negb (truthy (activeTileId st)) then ret tt
  else
    match find_active (activeTileId st) with
    | None => ret tt
    | Some tile =>
        let* now := new_Date in
        if negb (isRevealed host tile now) then ret tt
        else
          modify (fun st =>
            set_filePicker
              {| picker_value := EmptyString;
                 picker_clicks := S (picker_clicks (filePicker st)) |} st)
    end.

(** The change handler of [filePicker] up to its [await]; [file] is
    [e.target.files?.[0]]. *)
Definition filePicker_change (file : option File) (st : state) : change_outcome :=
  match file with
  | None => Ignored
  | Some f =>
      if negb (truthy (activeTileId st)) then Ignored
      else if negb (startsWith "image/" (file_type f)) then Ignored
      else AwaitRead f
  end.

(** The rest of the change handler, run when the read of the file has
    produced [dataUrl]. *)
Definition filePicker_change_resume (fuel : nat) (dataUrl : string) : M unit :=
  modify (fun st =>
    set_imagesById
      (<[property_key (activeTileId st) := dataUrl]> (imagesById st)) st) ;;;
  saveImages ;;;
  renderTrack fuel ;;;
  let* st := get in
  match find_active (activeTileId st) with
  | Some tile => openTileModal tile
  | None => ret tt
  end.
End Script.

(** The configured tiles of src/app.js. *)
Definition TILES_app : list Tile :=
  let tile i t r at_ ic :=
    {| tile_id := i; tile_title := t; tile_rarity := r; tile_revealAt := at_;
       tile_imageUrl := None; tile_icon := Some ic |} in
  [ tile "tile-01" "Operator Card" "rare" "2025-12-21T19:00:00+01:00" "🎭";
    tile "tile-02" "Weapon Wrap" "epic" "2025-12-22T19:00:00+01:00" "🗡️";
    tile "tile-03" "Spray" "common" "2025-12-23T19:00:00+01:00" "🎨";
    tile "tile-04" "Finisher" "legendary" "2025-12-24T19:00:00+01:00" "🔥";
    tile "tile-05" "Banner" "rare" "2025-12-25T19:00:00+01:00" "🏆";
    tile "tile-06" "Emote" "epic" "2025-12-26T19:00:00+01:00" "✨" ].

(** ** What a render pass leaves behind *)

(** The values of the [data-countdown-for] attributes below [n], in
    document order. *)
Fixpoint countdown_targets (n : node) : list string :=
  match n with
  | Text _ => []
  | Element _ attrs _ ch =>
      (match get_attr "data-countdown-for" attrs with
       | Some v => [v]
       | None => []
       end
       ++ (fix among (l : list node) : list string :=
             match l with
             | [] => []
             | c :: l' => countdown_targets c ++ among l'
             end) ch)%list
  end.

Fixpoint countdown_targets_among (l : list node) : list string :=
  match l with
  | [] => []
  | c :: l' => (countdown_targets c ++ countdown_targets_among l')%list
  end.

(** The element of a tile once [updateCountdowns] has written its
    countdown at the instant of the render. *)
Definition rendered_tile (host : Host) (variant : Variant) (now : Z)
    (images : gmap string string) (tile : Tile) : node :=
  let el := render_tile host variant now images tile in
  match update_first (matches_attr "data-countdown-for" (tile_id tile))
          (countdown_update (parseTime host (tile_revealAt tile)) now) el with
  | Some el' => el'
  | None => el
  end.

(** The state after a render pass in which every clock read gave [now]. *)
Definition after_render (host : Host) (variant : Variant) (TILES : list Tile)
    (now : Z) (st : state) : state :=
  {| imagesById := imagesById st;
     activeTileId := activeTileId st;
     localStorage := localStorage st;
     trackRow := map (rendered_tile host variant now (imagesById st)) TILES;
     trackHint := hint_text host variant now;
     modal := modal st;
     filePicker := filePicker st |}.

(** A clock that stands still at [now]. *)
Definition frozen (now : Z) : nat -> Z := fun _ => now.

(** ** Concrete pages, for running the script *)

(** A page before its first render: nothing stored, no modal open. *)
Definition initial_state : state :=
  {| imagesById := ∅;
     activeTileId := None;
     localStorage := Items ∅;
     trackRow := [];
     trackHint := EmptyString;
     modal := {| modalKicker := EmptyString; modalTitle := EmptyString;
                 modalRarity := EmptyString; modalReveal := EmptyString;
                 modalStatus := EmptyString; modalPreview := [];
                 modalUploadBtn_disabled := false;
                 modalUploadBtn_text := "Upload / Replace Image";
                 modalUploadBtn_display := EmptyString;
                 modalBackdrop_open := false;
                 modalBackdrop_ariaHidden := "true" |};
     filePicker := {| picker_value := EmptyString; picker_clicks := 0 |} |}.

(** A configuration whose first tile has an unparseable schedule. *)
Definition TILES_malformed : list Tile :=
  [ {| tile_id := "tile-01"; tile_title := "Operator Card"; tile_rarity := "rare";
       tile_revealAt := "not-a-date"; tile_imageUrl := None;
       tile_icon := Some "🎭" |};
    {| tile_id := "tile-02"; tile_title := "Weapon Wrap"; tile_rarity := "epic";
       tile_revealAt := "2025-12-22T19:00:00+01:00"; tile_imageUrl := None;
       tile_icon := Some "🗡️" |} ].

(** A tile that reveals at the start of 2025 (UTC). *)
Definition tile_new_year : Tile :=
  {| tile_id := "tile-ny"; tile_title := "New Year"; tile_rarity := "rare";
     tile_revealAt := "2025-01-01T00:00:00Z"; tile_imageUrl := None;
     tile_icon := Some "🎆" |}.

(** 2025-01-01T00:00:00Z and 2026-01-01T00:00:00Z, in milliseconds. *)
Definition new_year_2025 : Z := 1735689600000.
Definition new_year_2026 : Z := 1767225600000.

(** The sixth configured tile of src/app.js. *)
Definition tile_06 : Tile :=
  {| tile_id := "tile-06"; tile_title := "Emote"; tile_rarity := "epic";
     tile_revealAt := "2025-12-26T19:00:00+01:00"; tile_imageUrl := None;
     tile_icon := Some "✨" |}.

(** [m] keeps the property [I] of the script state, however the run
    ends. *)
Definition preserves {A} (I : state -> Prop) (m : M A) : Prop :=
  forall w, I (page w) -> I (page (final_world (m w))).

(** The stored images, in memory and in the storage, are [images] and
    [ls]. *)
Definition store_is (images : gmap string string) (ls : LocalStorage)
    (st : state) : Prop :=
  imagesById st = images /\ localStorage st = ls.

(** ** Render passes while the clock runs *)

(** A clock that never goes back. *)
Definition monotone (clock : nat -> Z) : Prop :=
  forall i j : nat, (i <= j)%nat -> clock i <= clock j.

(** The tile has a schedule that parses and lies after [T]. *)
Definition awaited (host : Host) (T : Z) (tile : Tile) : bool :=
  match parseTime host (tile_revealAt tile) with
  | Some t => T <? t
  | None => false
  end.

(** How many tiles are still to be revealed after [T]. *)
Definition pending (host : Host) (TILES : list Tile) (T : Z) : nat :=
  length (List.filter (awaited host T) TILES).

(** [el] is the element of [tile] in a track rendered at [T]: its class
    and id are those of the tile, a countdown inside it is the tile's
    own, and a tile without a valid schedule has kept its countdown
    element unless it already shows the marker. *)
Definition tile_element (host : Host) (T : Z) (tile : Tile) (el : node) : Prop :=
  (exists ls ch,
     el = Element "div"
            [("class", "tile " +:+ rarityClass (tile_rarity tile) +:+ " " +:+
                       (if reached (parseTime host (tile_revealAt tile)) T
                        then "revealed" else "locked"));
             ("data-id", tile_id tile)] ls ch)
  /\ countdown_targets el ⊆
       (if reached (parseTime host (tile_revealAt tile)) T then []
        else [tile_id tile])
  /\ (parseTime host (tile_revealAt tile) = None ->
      tile_id tile ∈ countdown_targets el
      \/ contains_text "Invalid time" el = true).

(** A tile without a valid schedule shows the marker. *)
Definition marked (host : Host) (tile : Tile) (el : node) : Prop :=
  parseTime host (tile_revealAt tile) = None ->
  contains_text "Invalid time" el = true.

(** The track of [st] is a track rendered at [T] in which every
    countdown has been written. *)
Definition settled (host : Host) (TILES : list Tile) (T : Z) (st : state) : Prop :=
  Forall2 (fun tile el => tile_element host T tile el /\ marked host tile el)
    TILES (trackRow st).

(** A tile that shares the id of [tile_new_year] and reveals a year
    later. *)
Definition tile_twin : Tile :=
  {| tile_id := "tile-ny"; tile_title := "Twin"; tile_rarity := "epic";
     tile_revealAt := "2026-01-01T00:00:00Z"; tile_imageUrl := None;
     tile_icon := None |}.

(** ** Further handlers and queries *)

(** [l[i]] for a Number index: [undefined] outside the list. *)
Definition at_index {A} (l : list A) (i : Z) : option A :=
  if i <? 0 then None else l !! Z.to_nat i.

(** The white space that separates the tokens of a [class] attribute. *)
Definition is_class_space (c : ascii) : bool :=
  Ascii.eqb c " " || Ascii.eqb c "009" || Ascii.eqb c "010"
  || Ascii.eqb c "012" || Ascii.eqb c "013".

Definition push_token (cur : string) (tokens : list string) : list string :=
  match cur with
  | EmptyString => tokens
  | String _ _ => cur :: tokens
  end.

(** The token that [s] starts with, and the tokens after it. *)
Fixpoint split_tokens (s : string) : string * list string :=
  match s with
  | EmptyString => (EmptyString, [])
  | String c rest =>
      let '(cur, tokens) := split_tokens rest in
      if is_class_space c then (EmptyString, push_token cur tokens)
      else (String c cur, tokens)
  end.

(** [el.classList] *)
Definition class_tokens (s : string) : list string :=
  let '(cur, tokens) := split_tokens s in push_token cur tokens.

(** The selector [.c[k="v"]]. *)
Definition matches_class_attr (c k v : string) (n : node) : bool :=
  match n with
  | Element _ attrs _ _ =>
      match get_attr "class" attrs with
      | Some cls => existsb (String.eqb c) (class_tokens cls)
      | None => false
      end
      && matches_attr k v n
  | Text _ => false
  end.

(** The first node, in document order, that satisfies [p]. *)
Fixpoint find_first (p : node -> bool) (n : node) : option node :=
  if p n then Some n
  else
    match n with
    | Text _ => None
    | Element _ _ _ ch =>
        (fix among (l : list node) : option node :=
           match l with
           | [] => None
           | c :: l' =>
               match find_first p c with
               | Some x => Some x
               | None => among l'
               end
           end) ch
    end.

Fixpoint find_first_among (p : node -> bool) (l : list node) : option node :=
  match l with
  | [] => None
  | c :: l' =>
      match find_first p c with
      | Some x => Some x
      | None => find_first_among p l'
      end
  end.

(** The values of the attribute [k] below [n], in document order. *)
Fixpoint attr_values (k : string) (n : node) : list string :=
  match n with
  | Text _ => []
  | Element _ attrs _ ch =>
      match get_attr k attrs with
      | Some v => [v]
      | None => []
      end
      ++ (fix among (l : list node) : list string :=
            match l with
            | [] => []
            | c :: l' => attr_values k c ++ among l'
            end) ch
  end.

Fixpoint attr_values_among (k : string) (l : list node) : list string :=
  match l with
  | [] => []
  | c :: l' => attr_values k c ++ attr_values_among k l'
  end.

Section MoreHandlers.
Context (host : Host) (clock : nat -> Z) (TILES : list Tile).

(** The click handler of [resetBtn] (src/app.js). *)
Definition resetBtn_click (fuel : nat) : M unit :=
modify (set_imagesById ∅) ;;;
saveImages ;;;
renderTrack host clock TILES Upload fuel ;;;
closeModal.

(** The click handler of [jumpNextBtn]; the result is the element that
  is scrolled into view, if any. Elements of class [tile] are made by
  [renderTrack] alone, so the selector is run on the track; as for the
  countdown selector, ids are taken to be free of quotes and
  backslashes. *)
Definition jumpNextBtn_click : M (option node) :=
let* now := new_Date clock in
let idx := nextUnrevealedIndex host TILES now in
let targetIndex := if idx =? -1 then Z.of_nat (length TILES) - 1 else idx in
let tileId := tile_id <$> at_index TILES targetIndex in
let* st := get in
ret (if truthy tileId then
       find_first_among
         (matches_class_attr "tile" "data-id" (default EmptyString tileId))
         (trackRow st)
     else None).
End MoreHandlers.

(** The element of a tile rendered at [T] whose countdown was last
    written at [U]. *)
Definition ticked_tile (host : Host) (variant : Variant) (T U : Z)
    (images : gmap string string) (tile : Tile) : node :=
  let el := render_tile host variant T images tile in
  match update_first (matches_attr "data-countdown-for" (tile_id tile))
          (countdown_update (parseTime host (tile_revealAt tile)) U) el with
  | Some el' => el'
  | None => el
  end.

(** No tile's reveal lies after [T] and at or before [U]. *)
Definition none_due (host : Host) (TILES : list Tile) (T U : Z) : Prop :=
  forall t r, t ∈ TILES -> parseTime host (tile_revealAt t) = Some r ->
              T < r -> U < r.

(** [el] is the element of [tile] in the track: a [div] of class [tile]
    that carries the id of the tile, and below which no other id is
    found. *)
Definition tile_root (tile : Tile) (el : node) : Prop :=
  (exists cls ls ch,
     el = Element "div"
            [("class", "tile " +:+ cls); ("data-id", tile_id tile)] ls ch)
  /\ attr_values "data-id" el ⊆ [tile_id tile].

(** The track holds one element per tile, in the order of [TILES]. *)
Definition tile_row (TILES : list Tile) (row : list node) : Prop :=
  Forall2 tile_root TILES row.




(** [none_due], as a test. *)
Definition none_dueb (host : Host) (TILES : list Tile) (T U : Z) : bool :=
  forallb (fun t => match parseTime host (tile_revealAt t) with
                    | Some r => (r <=? T) || (U <? r)
                    | None => true
                    end) TILES.

(** * Properties *)

(** ** Schedule evaluator *)

Section ScheduleFacts.
Context (host : Host).

(** C1. A tile is revealed exactly when its reveal instant parses and
    [now] is at or after it; at [now = revealAt] it is already
    revealed. *)
Theorem isRevealed_spec (tile : Tile) (now : Z) :
  (isRevealed host tile now = true <->
     exists t, parseTime host (tile_revealAt tile) = Some t /\ t <= now)
  /\ (forall t, parseTime host (tile_revealAt tile) = Some t ->
        isRevealed host tile t = true).
Proof.
  unfold isRevealed. split.
  - destruct (parseTime host (tile_revealAt tile)) as [t|]; split.
    + intros H. exists t. split; [reflexivity | lia].
    + intros (t' & [= <-] & Hle). lia.
    + discriminate.
    + intros (t' & [=] & _).
  - intros t ->. lia.
Qed.

(** C2. Reveal is monotone in time: once revealed, revealed at every
    later instant. *)
Theorem isRevealed_monotone (tile : Tile) (now1 now2 : Z) :
  now1 <= now2 ->
  isRevealed host tile now1 = true ->
  isRevealed host tile now2 = true.
Proof.
  unfold isRevealed. intros Hle.
  destruct (parseTime host (tile_revealAt tile)); [lia | done].
Qed.
End ScheduleFacts.

(** ** Countdown arithmetic *)

Lemma wholeSeconds_nonneg (ms : Z) : 0 <= wholeSeconds ms.
Proof. unfold wholeSeconds. lia. Qed.

Lemma wholeSeconds_zero_iff (ms : Z) : wholeSeconds ms = 0 <-> ms < 1000.
Proof.
  unfold wholeSeconds. split; intros H.
  - destruct (Z_lt_le_dec ms 1000) as [|Hge]; [done|].
    assert (1 <= ms / 1000) by (apply Z.div_le_lower_bound; lia). lia.
  - assert (ms / 1000 <= 0); [|lia].
    destruct (Z_lt_le_dec ms 0).
    + assert (ms / 1000 < 0) by (apply Z.div_lt_upper_bound; lia). lia.
    + rewrite Z.div_small; lia.
Qed.

(** On the non-negative [s] of [msToParts], [%] is the usual modulus. *)
Lemma msToParts_digits (ms : Z) :
  let s := wholeSeconds ms in
  msToParts ms =
    {| days := s / 86400; hours := s mod 86400 / 3600;
       mins := s mod 3600 / 60; secs := s mod 60 |}.
Proof.
  intros s. unfold msToParts. fold s.
  pose proof (wholeSeconds_nonneg ms) as Hs. fold s in Hs.
  rewrite !Z.rem_mod_nonneg by lia. reflexivity.
Qed.

Lemma partsToSeconds_msToParts (ms : Z) :
  partsToSeconds (msToParts ms) = wholeSeconds ms.
Proof.
  rewrite msToParts_digits. unfold partsToSeconds. cbn.
  pose proof (wholeSeconds_nonneg ms).
  generalize dependent (wholeSeconds ms). intros s Hs.
  pose proof (Z.div_mod s 86400). pose proof (Z.div_mod (s mod 86400) 3600).
  pose proof (Z.div_mod (s mod 3600) 60).
  assert (s mod 3600 = (s mod 86400) mod 3600) as E1.
  { symmetry. apply Z.mod_mod_divide. by exists 24. }
  assert (s mod 60 = (s mod 3600) mod 60) as E2.
  { symmetry. apply Z.mod_mod_divide. by exists 60. }
  lia.
Qed.

(** C3 (as amended). The remaining time shown for a tile is never
    negative, and it is zero exactly when less than one whole second is
    left, in particular whenever [now >= revealAt]. *)
Theorem remaining_nonneg_zero (revealAt now : Z) :
  0 <= partsToSeconds (remaining revealAt now)
  /\ (partsToSeconds (remaining revealAt now) = 0 <-> revealAt - now < 1000)
  /\ (revealAt <= now -> partsToSeconds (remaining revealAt now) = 0).
Proof.
  unfold remaining. rewrite partsToSeconds_msToParts.
  pose proof (wholeSeconds_nonneg (revealAt - now)).
  pose proof (wholeSeconds_zero_iff (revealAt - now)) as Hz.
  split; [done|]. split; [done|]. intros Hle. apply Hz. lia.
Qed.

(** C3, as stated, fails half a second before the reveal: the remaining
    time is already zero although [now < revealAt]. *)
Lemma remaining_zero_before_reveal :
  ~ (forall revealAt now : Z,
       0 <= partsToSeconds (remaining revealAt now)
       /\ (partsToSeconds (remaining revealAt now) = 0 <-> revealAt <= now)).
Proof.
  intros H. destruct (H 1000 500) as [_ [Hz _]].
  assert (partsToSeconds (remaining 1000 500) = 0) as E by reflexivity.
  specialize (Hz E). lia.
Qed.

Lemma msToParts_bounds (ms : Z) :
  0 <= days (msToParts ms)
  /\ 0 <= hours (msToParts ms) < 24
  /\ 0 <= mins (msToParts ms) < 60
  /\ 0 <= secs (msToParts ms) < 60.
Proof.
  rewrite msToParts_digits. cbn.
  pose proof (wholeSeconds_nonneg ms).
  generalize dependent (wholeSeconds ms). intros s Hs.
  pose proof (Z.mod_pos_bound s 86400). pose proof (Z.mod_pos_bound s 3600).
  pose proof (Z.mod_pos_bound s 60).
  repeat split.
  - apply Z.div_pos; lia.
  - apply Z.div_pos; lia.
  - apply Z.div_lt_upper_bound; lia.
  - apply Z.div_pos; lia.
  - apply Z.div_lt_upper_bound; lia.
  - lia.
  - lia.
Qed.

(** C4. [countdownString] shows days, hours and minutes when at least a
    day is left, hours, minutes and seconds when at least an hour is
    left, and minutes and seconds otherwise; the components are the
    non-negative digits of the whole seconds left (floor of the
    milliseconds, clamped at zero), also for a negative input. *)
Theorem countdownString_granularity :
  (forall ms : Z,
     let s := Z.max 0 (ms / 1000) in
     exists d h m sec,
       msToParts ms = {| days := d; hours := h; mins := m; secs := sec |}
       /\ 0 <= d /\ 0 <= h < 24 /\ 0 <= m < 60 /\ 0 <= sec < 60
       /\ d * 86400 + h * 3600 + m * 60 + sec = s
       /\ countdownString ms =
            if 86400 <=? s then
              Number_toString d +:+ "d " +:+ Number_toString h +:+ "h "
                +:+ Number_toString m +:+ "m"
            else if 3600 <=? s then
              Number_toString h +:+ "h " +:+ Number_toString m +:+ "m "
                +:+ Number_toString sec +:+ "s"
            else Number_toString m +:+ "m " +:+ Number_toString sec +:+ "s")
  /\ countdownString (90061 * 1000) = "1d 1h 1m"
  /\ countdownString (3661 * 1000) = "1h 1m 1s"
  /\ countdownString (61 * 1000) = "1m 1s"
  /\ countdownString 0 = "0m 0s"
  /\ countdownString (-1500) = "0m 0s".
Proof.
  split; [|by repeat split].
  intros ms s.
  destruct (msToParts ms) as [d h m sec] eqn:E.
  pose proof (msToParts_bounds ms) as B. rewrite E in B. cbn in B.
  pose proof (partsToSeconds_msToParts ms) as P. rewrite E in P.
  unfold partsToSeconds in P. cbn in P. fold (wholeSeconds ms) in s.
  exists d, h, m, sec. repeat split; try lia.
  unfold countdownString. rewrite E.
  destruct (0 <? d) eqn:Hd.
  - destruct (86400 <=? s) eqn:Hs; [done|]. subst s. lia.
  - destruct (86400 <=? s) eqn:Hs; [subst s; lia|].
    destruct (0 <? h) eqn:Hh.
    + destruct (3600 <=? s) eqn:Hs'; [done|]. subst s. lia.
    + destruct (3600 <=? s) eqn:Hs'; [subst s; lia|]. done.
Qed.

(** ** Next locked tile *)

Lemma findIndex_from_spec {A} (p : A -> bool) (l : list A) (i : Z) :
  (findIndex_from p l i = -1 /\ forall x, x ∈ l -> p x = false)
  \/ (exists (n : nat) (x : A),
        findIndex_from p l i = i + Z.of_nat n
        /\ l !! n = Some x /\ p x = true
        /\ forall (j : nat) (y : A), (j < n)%nat -> l !! j = Some y -> p y = false).
Proof.
  revert i. induction l as [|a l IH]; intros i; cbn.
  - left. split; [done|]. intros x Hx. inversion Hx.
  - destruct (p a) eqn:Hp.
    + right. exists 0%nat, a. repeat split; [lia|done|intros; lia].
    + destruct (IH (i + 1)) as [[E Hall]|(n & x & E & Hn & Hx & Hlt)].
      * left. split; [done|]. intros x Hx.
        apply elem_of_cons in Hx as [->|Hx]; auto.
      * right. exists (S n), x. repeat split; [lia|done|done|].
        intros [|j] y Hj Hy; cbn in Hy; [congruence|].
        apply (Hlt j); [lia|done].
Qed.

Section NextLocked.
Context (host : Host).

(** C5. [nextUnrevealedIndex] is the position, in list order, of the
    first tile that is not revealed, and [-1] when every tile is
    revealed. *)
Theorem nextUnrevealedIndex_first_locked (TILES : list Tile) (now : Z) :
  (nextUnrevealedIndex host TILES now = -1
     /\ forall t, t ∈ TILES -> isRevealed host t now = true)
  \/ (exists (i : nat) (t : Tile),
        nextUnrevealedIndex host TILES now = Z.of_nat i
        /\ TILES !! i = Some t
        /\ isRevealed host t now = false
        /\ forall (j : nat) (t' : Tile),
             (j < i)%nat -> TILES !! j = Some t' ->
             isRevealed host t' now = true).
Proof.
  unfold nextUnrevealedIndex, findIndex.
  destruct (findIndex_from_spec (fun t => negb (isRevealed host t now)) TILES 0)
    as [[E Hall]|(n & x & E & Hn & Hx & Hlt)].
  - left. split; [done|]. intros t Ht. apply Hall in Ht.
    by destruct (isRevealed host t now).
  - right. exists n, x. repeat split; try done.
    + by destruct (isRevealed host x now).
    + intros j t' Hj Ht'. specialize (Hlt j t' Hj Ht').
      by destruct (isRevealed host t' now).
Qed.
End NextLocked.

(** ** Persistence: JSON texts of image mappings *)

Lemma append_cons (x : ascii) (a b : string) :
  String x a +:+ b = String x (a +:+ b).
Proof. reflexivity. Qed.

Lemma append_nil (b : string) : EmptyString +:+ b = b.
Proof. reflexivity. Qed.

Ltac norm_append := repeat first [rewrite append_cons | rewrite append_nil].

Lemma append_assoc (a b c : string) : (a +:+ b) +:+ c = a +:+ (b +:+ c).
Proof. induction a as [|x a IH]; norm_append; [done|]. by rewrite IH. Qed.

Lemma length_append (a b : string) :
  String.length (a +:+ b) = (String.length a + String.length b)%nat.
Proof. induction a as [|x a IH]; norm_append; cbn; [done|]. by rewrite IH. Qed.

Module JsonFacts.
Import Json.

Lemma decode_items_unit (cu : N) (items : list (ascii + N)) :
  is_high_surrogate cu = false ->
  decode_items (inr cu :: items) = utf8 cu +:+ decode_items items.
Proof.
  intros H. cbn [decode_items]. rewrite H.
  by destruct items as [|[?|?] ?].
Qed.

(** Scanning undoes the escaping of one character. *)
Lemma scan_string_escape_char (c : ascii) (tail : string) :
  scan_string (escape_char c +:+ tail) =
    match scan_string tail with
    | Some (items, rest) => Some (item_of c :: items, rest)
    | None => None
    end.
Proof. destruct c as [[] [] [] [] [] [] [] []]; reflexivity. Qed.

Lemma decode_items_item_of (c : ascii) (items : list (ascii + N)) :
  decode_items (item_of c :: items) = String c (decode_items items).
Proof.
  destruct c as [[] [] [] [] [] [] [] []];
    match goal with
    | |- context [item_of ?c] =>
        let it := eval vm_compute in (item_of c) in
        change (item_of c) with it
    end;
    first [ reflexivity
          | rewrite decode_items_unit by reflexivity; reflexivity ].
Qed.

Lemma scan_string_escape (s rest : string) :
  exists items,
    scan_string (escape s +:+ String quote_char rest) = Some (items, rest)
    /\ decode_items items = s.
Proof.
  induction s as [|c s (items & Hs & Hd)].
  - by exists [].
  - cbn [escape]. rewrite append_assoc, scan_string_escape_char, Hs.
    exists (item_of c :: items). split; [done|].
    by rewrite decode_items_item_of, Hd.
Qed.
End JsonFacts.

Module JsonRoundTrip.
Import Json JsonFacts.

Lemma stringify_members_cons (k v : string) (l : list (string * string))
    (tail : string) :
  stringify_members ((k, v) :: l) +:+ tail =
    String quote_char
      (escape k +:+ String quote_char
         (String ":" (String quote_char
            (escape v +:+ String quote_char (after_member l tail))))).
Proof.
  cbn [stringify_members]. unfold quote.
  repeat first [rewrite append_cons | rewrite append_nil | rewrite append_assoc].
  do 6 f_equal. by destruct l.
Qed.

Lemma parse_value_string (fuel : nat) (s tail : string) :
  parse_value (S fuel) (String quote_char (escape s +:+ String quote_char tail))
    = Some (Str s, tail).
Proof.
  destruct (scan_string_escape s tail) as (items & Hs & Hd).
  cbn. rewrite Hs, Hd. done.
Qed.

Lemma parse_members_stringify (l : list (string * string)) :
  forall (fuel : nat) (acc : gmap string value) (rest : string),
    l <> [] -> (length l < fuel)%nat ->
    parse_members fuel (stringify_members l +:+ String "}" rest) acc =
      Some (Obj (foldl add_member acc l), rest).
Proof.
  induction l as [|[k v] l IH]; intros fuel acc rest Hne Hfuel; [done|].
  destruct fuel as [|[|fuel]]; cbn in Hfuel; [lia|lia|].
  rewrite stringify_members_cons.
  destruct (scan_string_escape k
              (String ":" (String quote_char
                 (escape v +:+ String quote_char
                    (after_member l (String "}" rest))))))
    as (ik & Hk & Dk).
  cbn -[parse_value]. rewrite Hk. cbn -[parse_value].
  rewrite parse_value_string, Dk.
  destruct l as [|kv l].
  - done.
  - change (parse_members (S fuel)
              (stringify_members (kv :: l) +:+ String "}" rest)
              (add_member acc (k, v))
            = Some (Obj (foldl add_member acc ((k, v) :: kv :: l)), rest)).
    rewrite (IH (S fuel)); [done|done|cbn in *; lia].
Qed.

Lemma stringify_members_length (l : list (string * string)) (tail : string) :
  (length l <= String.length (stringify_members l +:+ tail))%nat.
Proof.
  revert tail. induction l as [|[k v] l IH]; intros tail; [cbn; lia|].
  rewrite stringify_members_cons. cbn [String.length].
  rewrite !length_append. cbn [String.length]. rewrite !length_append.
  cbn [String.length length].
  destruct l as [|kv l]; [cbn [after_member length]; lia|].
  cbn [after_member String.length]. specialize (IH tail). lia.
Qed.

Lemma foldl_add_member_lookup (l : list (string * string)) :
  NoDup l.*1 ->
  forall (acc : gmap string value) (k : string),
    foldl add_member acc l !! k =
      match (list_to_map l : gmap string string) !! k with
      | Some v => Some (Str v)
      | None => acc !! k
      end.
Proof.
  induction l as [|[k0 v0] l IH]; intros Hnd acc k; [done|].
  apply NoDup_cons in Hnd as [Hk0 Hnd].
  cbn [foldl]. rewrite (IH Hnd). unfold add_member. cbn [fst snd list_to_map foldr].
  destruct (decide (k = k0)) as [->|Hne].
  - rewrite lookup_insert_eq.
    rewrite (not_elem_of_list_to_map_1 (M := gmap string) l k0 Hk0).
    by rewrite lookup_insert_eq.
  - by rewrite !lookup_insert_ne by congruence.
Qed.

Lemma parse_value_object (fuel : nat) (s : string) :
  parse_value (S fuel) (String "{" (String quote_char s)) =
    parse_members fuel (String quote_char s) ∅.
Proof. reflexivity. Qed.

(** [JSON.parse] reads back what [JSON.stringify] wrote for a mapping
    with string values. *)
Lemma parse_stringify (m : gmap string string) :
  parse (stringify m) = Normal (of_strings m).
Proof.
  unfold parse, stringify, of_strings.
  pose proof (stringify_members_length (map_to_list m) "}") as Hlen.
  assert (foldl add_member ∅ (map_to_list m) = Str <$> m) as Hmap.
  { apply map_eq. intros k.
    rewrite foldl_add_member_lookup by apply NoDup_fst_map_to_list.
    rewrite list_to_map_to_list, lookup_fmap, lookup_empty.
    by destruct (m !! k). }
  rewrite append_cons, append_nil.
  cbn [String.length].
  set (body := stringify_members (map_to_list m) +:+ "}") in *.
  replace (2 * S (String.length body) + 2)%nat
    with (S (S (2 * String.length body + 2)))%nat by lia.
  destruct (map_to_list m) as [|[k v] l] eqn:El.
  - subst body. cbn. by rewrite <- Hmap.
  - assert (parse_members (S (2 * String.length body + 2)) body ∅
            = Some (Obj (foldl add_member ∅ ((k, v) :: l)), EmptyString)) as Hp.
    { subst body. apply parse_members_stringify; [done|]. lia. }
    subst body. rewrite stringify_members_cons in *.
    rewrite parse_value_object, Hp, Hmap. reflexivity.
Qed.
End JsonRoundTrip.

(** ** Document model *)

(** Induction on nodes, with the hypothesis for every child. *)
Lemma node_nested_ind (P : node -> Prop) :
  (forall s, P (Text s)) ->
  (forall tag attrs ls ch, Forall P ch -> P (Element tag attrs ls ch)) ->
  forall n, P n.
Proof.
  intros HT HE. fix IH 1. intros [s|tag attrs ls ch]; [apply HT|].
  apply HE. induction ch as [|c ch IHch]; constructor; [apply IH|apply IHch].
Qed.

Lemma update_first_unfold (p : node -> bool) (f : node -> node)
    (tag : string) (attrs : list (string * string))
    (ls : list (string * handler)) (ch : list node) :
  update_first p f (Element tag attrs ls ch) =
    if p (Element tag attrs ls ch) then Some (f (Element tag attrs ls ch))
    else match update_first_among p f ch with
         | Some ch' => Some (Element tag attrs ls ch')
         | None => None
         end.
Proof.
  cbn [update_first]. destruct (p _); [done|].
  assert ((fix among (l : list node) : option (list node) :=
             match l with
             | [] => None
             | c :: l' =>
                 match update_first p f c with
                 | Some c' => Some (c' :: l')
                 | None => match among l' with
                           | Some l'' => Some (c :: l'')
                           | None => None
                           end
                 end
             end) ch = update_first_among p f ch) as ->; [|done].
  induction ch as [|c ch IH]; cbn; [done|]. by rewrite IH.
Qed.

Lemma countdown_targets_unfold (tag : string) (attrs : list (string * string))
    (ls : list (string * handler)) (ch : list node) :
  countdown_targets (Element tag attrs ls ch) =
    (match get_attr "data-countdown-for" attrs with
     | Some v => [v]
     | None => []
     end ++ countdown_targets_among ch)%list.
Proof.
  reflexivity.
Qed.

Lemma contains_text_unfold (s tag : string) (attrs : list (string * string))
    (ls : list (string * handler)) (ch : list node) :
  contains_text s (Element tag attrs ls ch) = existsb (contains_text s) ch.
Proof.
  cbn [contains_text]. induction ch as [|c ch IH]; cbn; [done|]. by rewrite IH.
Qed.

Section Selector.
Context (id : string) (f : node -> node).
Let p := matches_attr "data-countdown-for" id.

Lemma matches_attr_targets (n : node) :
  p n = true -> id ∈ countdown_targets n.
Proof.
  destruct n as [s|tag attrs ls ch]; [done|].
  rewrite countdown_targets_unfold. unfold p. cbn.
  destruct (get_attr _ attrs) as [v|]; [|done].
  intros ->%String.eqb_eq. apply elem_of_app. left. apply list_elem_of_here.
Qed.

Lemma targets_matches_attr (tag : string) (attrs : list (string * string))
    (ls : list (string * handler)) (ch : list node) :
  p (Element tag attrs ls ch) = false ->
  id ∈ countdown_targets (Element tag attrs ls ch) ->
  id ∈ countdown_targets_among ch.
Proof.
  rewrite countdown_targets_unfold. unfold p. cbn.
  destruct (get_attr _ attrs) as [v|]; [|by rewrite app_nil_l].
  intros Hv [Hin|Hin]%elem_of_app; [|done].
  apply list_elem_of_singleton in Hin as ->.
  by rewrite String.eqb_refl in Hv.
Qed.

(** No element carries the id: [querySelector] finds nothing. *)
Lemma update_first_none (n : node) :
  id ∉ countdown_targets n -> update_first p f n = None.
Proof.
  induction n as [s|tag attrs ls ch IH] using node_nested_ind; [done|].
  intros Hnot. rewrite update_first_unfold.
  destruct (p _) eqn:Hp; [by apply matches_attr_targets in Hp|].
  assert (update_first_among p f ch = None) as ->; [|done].
  assert (id ∉ countdown_targets_among ch) as Hch.
  { intros Hin. apply Hnot. rewrite countdown_targets_unfold.
    apply elem_of_app. by right. }
  clear Hnot Hp. induction IH as [|c ch Hc _ IHch]; [done|].
  cbn in *. rewrite Hc, IHch; [done| |]; intros Hin; apply Hch;
    apply elem_of_app; auto.
Qed.

Lemma update_first_among_none (l : list node) :
  id ∉ countdown_targets_among l -> update_first_among p f l = None.
Proof.
  induction l as [|c l IH]; [done|]. cbn. intros Hnot.
  rewrite update_first_none, IH; [done| |]; intros Hin; apply Hnot;
    apply elem_of_app; auto.
Qed.

(** Some element carries the id: [querySelector] finds one. *)
Lemma update_first_some (n : node) :
  id ∈ countdown_targets n -> is_Some (update_first p f n).
Proof.
  induction n as [s|tag attrs ls ch IH] using node_nested_ind;
    [by intros ?%elem_of_nil|].
  intros Hin. rewrite update_first_unfold.
  destruct (p _) eqn:Hp; [by eexists|].
  apply targets_matches_attr in Hin; [|done].
  assert (is_Some (update_first_among p f ch)) as [ch' ->]; [|by eexists].
  clear Hp. induction IH as [|c ch Hc _ IHch]; [by apply elem_of_nil in Hin|].
  cbn in *. destruct (update_first p f c) eqn:E; [by eexists|].
  apply elem_of_app in Hin as [Hin|Hin]; [by destruct (Hc Hin)|].
  destruct (IHch Hin) as [ch' ->]. by eexists.
Qed.

(** The update adds no countdown target, provided [f] adds none. *)
Lemma update_first_targets (n n' : node) :
  (forall x, countdown_targets (f x) ⊆ countdown_targets x) ->
  update_first p f n = Some n' ->
  countdown_targets n' ⊆ countdown_targets n.
Proof.
  intros Hf. revert n'.
  induction n as [s|tag attrs ls ch IH] using node_nested_ind; intros n'.
  - unfold p. by cbn.
  - rewrite update_first_unfold. destruct (p _); [intros [= <-]; apply Hf|].
    destruct (update_first_among p f ch) as [ch'|] eqn:E; [|done].
    intros [= <-]. rewrite !countdown_targets_unfold.
    assert (countdown_targets_among ch' ⊆ countdown_targets_among ch) as Hsub.
    { clear -IH E. revert ch' E.
      induction IH as [|c ch Hc _ IHch]; intros ch' E; [done|].
      cbn in E. destruct (update_first p f c) as [c'|] eqn:Ec.
      - injection E as <-. cbn. specialize (Hc _ eq_refl).
        intros x [?|?]%elem_of_app; apply elem_of_app; auto.
      - destruct (update_first_among p f ch) as [ch''|] eqn:Ech; [|done].
        injection E as <-. cbn. specialize (IHch _ eq_refl).
        intros x [?|?]%elem_of_app; apply elem_of_app; auto. }
    intros x [?|?]%elem_of_app; apply elem_of_app; auto.
Qed.

(** The updated element shows any text that [f] always writes. *)
Lemma update_first_contains_text (s : string) (n n' : node) :
  (forall x, contains_text s (f x) = true) ->
  update_first p f n = Some n' ->
  contains_text s n' = true.
Proof.
  intros Hf. revert n'.
  induction n as [s0|tag attrs ls ch IH] using node_nested_ind; intros n'.
  - unfold p. by cbn.
  - rewrite update_first_unfold. destruct (p _); [intros [= <-]; apply Hf|].
    destruct (update_first_among p f ch) as [ch'|] eqn:E; [|done].
    intros [= <-]. rewrite contains_text_unfold.
    clear -IH E. revert ch' E.
    induction IH as [|c ch Hc _ IHch]; intros ch' E; [done|].
    cbn in E. destruct (update_first p f c) as [c'|] eqn:Ec.
    + injection E as <-. cbn. by rewrite (Hc _ eq_refl).
    + destruct (update_first_among p f ch) as [ch''|] eqn:Ech; [|done].
      injection E as <-. cbn. rewrite (IHch _ eq_refl). apply orb_true_r.
Qed.
End Selector.

(** ** Render pass *)

Lemma countdown_targets_text_nodes (s : string) :
  countdown_targets_among (text_nodes s) = [].
Proof. by destruct s. Qed.

Lemma countdown_update_targets (revealAt : option Z) (now : Z) (x : node) :
  countdown_targets (countdown_update revealAt now x) ⊆ countdown_targets x.
Proof.
  destruct x as [s|tag attrs ls ch]; [by destruct revealAt|].
  assert (forall ch', countdown_targets_among ch' = [] ->
            countdown_targets (Element tag attrs ls ch')
              ⊆ countdown_targets (Element tag attrs ls ch)) as H.
  { intros ch' E. rewrite !countdown_targets_unfold, E, app_nil_r.
    intros v Hv. apply elem_of_app. by left. }
  destruct revealAt as [t|];
    cbn [countdown_update set_children set_firstChild_text set_textContent].
  - destruct ch; apply H; unfold countdown_html; cbn;
      apply countdown_targets_text_nodes.
  - by apply H.
Qed.

Lemma countdown_targets_text (s : string) : countdown_targets (Text s) = [].
Proof. reflexivity. Qed.

(** Computes the countdown targets of an element written out in full. *)
Ltac targets_of_literal :=
  repeat first
    [ rewrite countdown_targets_unfold
    | rewrite countdown_targets_text
    | rewrite countdown_targets_text_nodes
    | progress cbn -[art_content text_nodes countdown_targets] ];
  try reflexivity.

Lemma art_content_targets src alt icon fallback cls fs :
  countdown_targets (art_content src alt icon fallback cls fs) = [].
Proof.
  unfold art_content. destruct (truthy src); [done|].
  destruct cls, fs; cbn -[text_nodes countdown_targets]; targets_of_literal.
Qed.

Section RenderShape.
Context (host : Host) (variant : Variant) (now : Z).
Context (images : gmap string string).

(** A rendered tile has a countdown element exactly when it is locked,
    and that element is labelled with the tile's id. *)
Lemma render_tile_targets (tile : Tile) :
  countdown_targets (render_tile host variant now images tile) =
    if reached (parseTime host (tile_revealAt tile)) now then []
    else [tile_id tile].
Proof.
  unfold render_tile. destruct variant.
  - unfold render_tile_upload.
    destruct (reached _ now);
      cbn -[art_content text_nodes countdown_targets];
      targets_of_literal; rewrite art_content_targets; targets_of_literal.
  - unfold render_tile_url.
    destruct (reached _ now);
      cbn -[art_content text_nodes countdown_targets];
      targets_of_literal; rewrite art_content_targets; targets_of_literal.
Qed.

Lemma render_tile_root (tile : Tile) :
  exists ls ch,
    render_tile host variant now images tile =
      Element "div"
        [("class", "tile " +:+ rarityClass (tile_rarity tile) +:+ " " +:+
                   (if reached (parseTime host (tile_revealAt tile)) now
                    then "revealed" else "locked"));
         ("data-id", tile_id tile)] ls ch.
Proof.
  unfold render_tile. destruct variant.
  - unfold render_tile_upload. destruct (reached _ now);
      cbn -[art_content text_nodes]; by do 2 eexists.
  - unfold render_tile_url. destruct (reached _ now);
      cbn -[art_content text_nodes]; by do 2 eexists.
Qed.
End RenderShape.

Lemma update_first_among_app_none (id : string) (f : node -> node)
    (l1 l2 : list node) :
  id ∉ countdown_targets_among l1 ->
  update_first_among (matches_attr "data-countdown-for" id) f (l1 ++ l2) =
    match update_first_among (matches_attr "data-countdown-for" id) f l2 with
    | Some l2' => Some (l1 ++ l2')
    | None => None
    end.
Proof.
  induction l1 as [|c l1 IH]; intros Hnot.
  - cbn. by destruct (update_first_among _ f l2).
  - cbn in *. rewrite update_first_none, IH.
    + by destruct (update_first_among _ f l2).
    + intros Hin. apply Hnot, elem_of_app. by right.
    + intros Hin. apply Hnot, elem_of_app. by left.
Qed.

Lemma countdown_targets_among_map (g : Tile -> node) (ts : list Tile) (id : string) :
  (forall t, countdown_targets (g t) ⊆ [tile_id t]) ->
  id ∉ tile_id <$> ts ->
  id ∉ countdown_targets_among (map g ts).
Proof.
  intros Hg. induction ts as [|t ts IH]; cbn; [by intros _ ?%elem_of_nil|].
  intros Hnot [Hin|Hin]%elem_of_app.
  - apply Hg, list_elem_of_singleton in Hin as ->. apply Hnot, list_elem_of_here.
  - apply IH; [|done]. intros ?. apply Hnot. by apply list_elem_of_further.
Qed.

Section Frozen.
Context (host : Host) (variant : Variant) (TILES : list Tile) (now : Z).

Let R (images : gmap string string) : Tile -> node :=
  render_tile host variant now images.
Let F (images : gmap string string) : Tile -> node :=
  rendered_tile host variant now images.

Lemma render_tile_targets_sub images t :
  countdown_targets (R images t) ⊆ [tile_id t].
Proof.
  unfold R. rewrite render_tile_targets.
  destruct (reached _ now); [by intros ? ?%elem_of_nil|done].
Qed.

Lemma rendered_tile_targets_sub images t :
  countdown_targets (F images t) ⊆ [tile_id t].
Proof.
  unfold F, rendered_tile.
  destruct (update_first _ _ _) as [el|] eqn:E; [|apply render_tile_targets_sub].
  etrans; [|apply (render_tile_targets_sub images t)].
  eapply update_first_targets; [|exact E].
  apply countdown_update_targets.
Qed.

(** The render loop appends one element per tile. *)
Lemma for_each_append_tile (ts : list Tile) :
  forall (st : state) (n : nat),
    for_each ts (append_tile host variant now) {| page := st; reads := n |} =
      Ok tt {| page := set_trackRow (trackRow st ++ map (R (imagesById st)) ts) st;
               reads := n |}.
Proof.
  induction ts as [|t ts IH]; intros st n.
  - cbn. unfold ret. do 2 f_equal. destruct st; cbn. by rewrite app_nil_r.
  - cbn [for_each]. unfold bind at 1. unfold append_tile at 1.
    unfold bind, get, modify. cbn [page reads]. rewrite IH.
    do 2 f_equal. unfold set_trackRow; cbn. f_equal.
    by rewrite <- app_assoc.
Qed.

(** With the clock standing still, the countdown loop turns every
    rendered tile into its final form and never starts a render. *)
Lemma for_each_countdown_step (render : M unit) (post : list Tile) :
  forall (pre : list Tile) (st : state) (n : nat),
    NoDup (tile_id <$> (pre ++ post)) ->
    let images := imagesById st in
    for_each post (countdown_step host render now)
      {| page := set_trackRow (map (F images) pre ++ map (R images) post) st;
         reads := n |} =
      Ok tt {| page := set_trackRow (map (F images) (pre ++ post)) st;
               reads := n |}.
Proof.
  induction post as [|t post IH]; intros pre st n Hnd images.
  - cbn. by rewrite !app_nil_r.
  - assert ((tile_id t ∉ (tile_id <$> pre)) /\ (tile_id t ∉ (tile_id <$> post)))
      as [Hpre Hpost].
    { rewrite fmap_app in Hnd. apply NoDup_app in Hnd as (_ & Hdisj & Hnd).
      rewrite fmap_cons in Hnd, Hdisj. apply NoDup_cons in Hnd as [? _].
      split; [|done]. intros Hin. apply (Hdisj _ Hin), list_elem_of_here. }
    assert (NoDup (tile_id <$> ((pre ++ [t]) ++ post))) as Hnd'.
    { by rewrite <- app_assoc. }
    specialize (IH (pre ++ [t]) st n Hnd'). cbn zeta in IH. fold images in IH.
    rewrite <- app_assoc in IH. cbn [app] in IH.
    cbn [for_each]. unfold bind at 1. unfold countdown_step at 1.
    unfold bind at 1. unfold get at 1. cbn [page reads trackRow set_trackRow].
    rewrite update_first_among_app_none
      by (apply countdown_targets_among_map;
          [apply rendered_tile_targets_sub|done]).
    cbn [map update_first_among].
    pose proof (render_tile_targets host variant now images t) as Ht.
    fold (R images) in Ht.
    assert (F images t =
            match update_first (matches_attr "data-countdown-for" (tile_id t))
                    (countdown_update (parseTime host (tile_revealAt t)) now)
                    (R images t) with
            | Some el => el
            | None => R images t
            end) as HF by reflexivity.
    destruct (reached (parseTime host (tile_revealAt t)) now) eqn:Hreached.
    + rewrite update_first_none in HF |- * by (rewrite Ht; apply not_elem_of_nil).
      rewrite update_first_among_none
        by (apply countdown_targets_among_map;
            [apply render_tile_targets_sub|done]).
      unfold ret at 1. rewrite <- IH. do 3 f_equal.
      rewrite map_app. cbn [map]. rewrite <- app_assoc. cbn [app].
      by rewrite HF.
    + destruct (update_first_some (tile_id t)
                  (countdown_update (parseTime host (tile_revealAt t)) now)
                  (R images t)) as [el Hel];
        [rewrite Ht; apply list_elem_of_here|].
      rewrite Hel in HF |- *. subst el.
      unfold bind at 1. unfold modify at 1. cbn [page reads].
      assert (match parseTime host (tile_revealAt t) with
              | Some t0 => if t0 - now <=? 0 then render else ret tt
              | None => ret tt
              end = ret tt) as ->.
      { unfold reached in Hreached.
        destruct (parseTime host (tile_revealAt t)) as [t0|]; [|done].
        destruct (t0 - now <=? 0) eqn:E; [lia|done]. }
      unfold ret at 1.
      rewrite <- IH. do 2 f_equal. unfold set_trackRow. cbn. f_equal.
      rewrite map_app. cbn [map]. by rewrite <- app_assoc.
Qed.

(** A render pass during which the clock stands still, over tiles with
    pairwise distinct ids: it returns, and leaves [after_render]. *)
Lemma renderTrack_frozen (fuel : nat) (st : state) (n : nat) :
  NoDup (tile_id <$> TILES) ->
  renderTrack host (frozen now) TILES variant (S fuel) {| page := st; reads := n |} =
    Ok tt {| page := after_render host variant TILES now st;
             reads := S (S n) |}.
Proof.
  intros Hnd. cbn [renderTrack].
  unfold bind at 1. unfold modify at 1. cbn [page reads].
  unfold bind at 1. unfold new_Date at 1. cbn [page reads]. unfold frozen at 1.
  unfold bind at 1. unfold modify at 1. cbn [page reads].
  unfold bind at 1. rewrite for_each_append_tile.
  unfold updateCountdowns_with. unfold bind at 1. unfold new_Date at 1.
  cbn [page reads]. unfold frozen at 1.
  pose proof (for_each_countdown_step (renderTrack host (frozen now) TILES variant fuel)
                TILES [] (set_trackHint (hint_text host variant now) (set_trackRow [] st))
                (S (S n)) Hnd) as H.
  cbn zeta in H. cbn [page map] in H.
  etrans; [|etrans; [exact H|]]; reflexivity.
Qed.
End Frozen.

(** ** What rendering leaves untouched *)

Section Frame.
Context (I : state -> Prop).

Lemma preserves_ret {A} (a : A) : preserves I (ret a).
Proof. by intros w Hw. Qed.

Lemma preserves_get : preserves I get.
Proof. by intros w Hw. Qed.

Lemma preserves_modify (f : state -> state) :
  (forall st, I st -> I (f st)) -> preserves I (modify f).
Proof. intros Hf w Hw. by apply Hf. Qed.

Lemma preserves_new_Date (clock : nat -> Z) : preserves I (new_Date clock).
Proof. by intros w Hw. Qed.

Lemma preserves_bind {A B} (m : M A) (k : A -> M B) :
  preserves I m -> (forall a, preserves I (k a)) -> preserves I (bind m k).
Proof.
  intros Hm Hk w Hw. unfold bind. specialize (Hm w Hw).
  destruct (m w) as [a w'|e w'|w']; cbn in *; [by apply Hk|done|done].
Qed.

Lemma preserves_for_each {A} (l : list A) (body : A -> M unit) :
  (forall x, preserves I (body x)) -> preserves I (for_each l body).
Proof.
  intros Hbody. induction l as [|x l IH]; cbn [for_each].
  - apply preserves_ret.
  - apply preserves_bind; [apply Hbody|]. by intros _.
Qed.

Hypothesis I_trackRow : forall row st, I st -> I (set_trackRow row st).
Hypothesis I_trackHint : forall h st, I st -> I (set_trackHint h st).

Context (host : Host) (clock : nat -> Z) (TILES : list Tile) (variant : Variant).

Lemma preserves_updateCountdowns_with (render : M unit) :
  preserves I render ->
  preserves I (updateCountdowns_with host clock TILES render).
Proof.
  intros Hrender. unfold updateCountdowns_with.
  apply preserves_bind; [apply preserves_new_Date|]. intros now.
  apply preserves_for_each. intros tile. unfold countdown_step.
  apply preserves_bind; [apply preserves_get|]. intros st.
  destruct (update_first_among _ _ _) as [row|]; [|apply preserves_ret].
  apply preserves_bind; [by apply preserves_modify, I_trackRow|]. intros _.
  destruct (parseTime host (tile_revealAt tile)) as [t|]; [|apply preserves_ret].
  destruct (t - now <=? 0); [done|apply preserves_ret].
Qed.

(** A render pass, to whatever depth it nests and however it ends,
    changes nothing but the track and the hint. *)
Lemma preserves_renderTrack (fuel : nat) :
  preserves I (renderTrack host clock TILES variant fuel).
Proof.
  induction fuel as [|fuel IH]; [by intros w Hw|].
  cbn [renderTrack].
  apply preserves_bind; [by apply preserves_modify, I_trackRow|]. intros _.
  apply preserves_bind; [apply preserves_new_Date|]. intros now.
  apply preserves_bind; [by apply preserves_modify, I_trackHint|]. intros _.
  apply preserves_bind.
  - apply preserves_for_each. intros tile. unfold append_tile.
    apply preserves_bind; [apply preserves_get|]. intros st.
    by apply preserves_modify, I_trackRow.
  - intros _. by apply preserves_updateCountdowns_with.
Qed.

Hypothesis I_activeTileId : forall a st, I st -> I (set_activeTileId a st).
Hypothesis I_modal : forall m st, I st -> I (set_modal m st).

Lemma preserves_openTileModal (tile : Tile) :
  preserves I (openTileModal host clock variant tile).
Proof.
  unfold openTileModal.
  apply preserves_bind; [by apply preserves_modify, I_activeTileId|]. intros _.
  apply preserves_bind; [apply preserves_new_Date|]. intros now.
  apply preserves_bind; [apply preserves_get|]. intros st.
  by apply preserves_modify, I_modal.
Qed.
End Frame.

Lemma store_is_preserved (host : Host) (clock : nat -> Z) (TILES : list Tile)
    (variant : Variant) (fuel : nat) (images : gmap string string)
    (ls : LocalStorage) :
  preserves (store_is images ls)
    (renderTrack host clock TILES variant fuel ;;;
     let* st := get in
     match find_active TILES (activeTileId st) with
     | Some tile => openTileModal host clock variant tile
     | None => ret tt
     end).
Proof.
  apply preserves_bind; [by apply preserves_renderTrack|]. intros _.
  apply preserves_bind; [apply preserves_get|]. intros st.
  destruct (find_active TILES (activeTileId st)) as [tile|];
    [by apply preserves_openTileModal|apply preserves_ret].
Qed.

(** ** Render passes while the clock runs *)

Lemma contains_invalid_time (now : Z) (x : node) :
  contains_text "Invalid time" (countdown_update None now x) = true.
Proof. by destruct x. Qed.

Lemma filter_length_le {A} (p q : A -> bool) (l : list A) :
  (forall x, q x = true -> p x = true) ->
  (length (List.filter q l) <= length (List.filter p l))%nat.
Proof.
  intros Hqp. induction l as [|x l IH]; cbn; [lia|].
  destruct (q x) eqn:Hq.
  - rewrite (Hqp x Hq). cbn. lia.
  - destruct (p x); cbn; lia.
Qed.

Lemma filter_length_lt {A} (p q : A -> bool) (l : list A) (x0 : A) :
  (forall x, q x = true -> p x = true) ->
  x0 ∈ l -> p x0 = true -> q x0 = false ->
  (length (List.filter q l) < length (List.filter p l))%nat.
Proof.
  intros Hqp Hin Hp Hq. induction l as [|x l IH]; [by apply elem_of_nil in Hin|].
  cbn. apply elem_of_cons in Hin as [<-|Hin].
  - rewrite Hp, Hq. cbn. pose proof (filter_length_le p q l Hqp). lia.
  - specialize (IH Hin). destruct (q x) eqn:Hqx.
    + rewrite (Hqp x Hqx). cbn. lia.
    + destruct (p x); cbn; lia.
Qed.

Section Pending.
Context (host : Host) (TILES : list Tile).

Lemma awaited_antitone (T T' : Z) (t : Tile) :
  T <= T' -> awaited host T' t = true -> awaited host T t = true.
Proof.
  unfold awaited. intros Hle.
  destruct (parseTime host (tile_revealAt t)); [lia|done].
Qed.

Lemma pending_antitone (T T' : Z) :
  T <= T' -> (pending host TILES T' <= pending host TILES T)%nat.
Proof.
  intros Hle. apply filter_length_le. intros t. by apply awaited_antitone.
Qed.

(** A tile that was awaited at [T] and is due at [T'] makes the count
    drop. *)
Lemma pending_drops (T T' : Z) (t : Tile) (r : Z) :
  t ∈ TILES -> parseTime host (tile_revealAt t) = Some r ->
  T < r -> r <= T' ->
  (pending host TILES T' < pending host TILES T)%nat.
Proof.
  intros Hin Hparse Hlt Hle.
  apply (filter_length_lt _ _ _ t); [|done| |].
  - intros t'. apply awaited_antitone. lia.
  - unfold awaited. rewrite Hparse. lia.
  - unfold awaited. rewrite Hparse. lia.
Qed.
End Pending.

Section TileElement.
Context (host : Host) (variant : Variant).

Lemma render_tile_element (T : Z) (images : gmap string string) (t : Tile) :
  tile_element host T t (render_tile host variant T images t).
Proof.
  pose proof (render_tile_targets host variant T images t) as Ht.
  split; [apply render_tile_root|]. split; [by rewrite Ht|].
  intros Hparse. left. rewrite Ht, Hparse. apply list_elem_of_here.
Qed.

Lemma update_first_found (id : string) (f : node -> node) (el el' : node) :
  update_first (matches_attr "data-countdown-for" id) f el = Some el' ->
  id ∈ countdown_targets el.
Proof.
  intros Hup. destruct (decide (id ∈ countdown_targets el)) as [|Hnot]; [done|].
  by rewrite update_first_none in Hup.
Qed.

(** Writing the countdown of a tile keeps its element in shape, and
    marks it when its schedule is not valid. *)
Lemma tile_element_update (T U : Z) (t : Tile) (el el' : node) :
  tile_element host T t el ->
  update_first (matches_attr "data-countdown-for" (tile_id t))
    (countdown_update (parseTime host (tile_revealAt t)) U) el = Some el' ->
  tile_element host T t el' /\ marked host t el'.
Proof.
  intros ((ls & ch & ->) & Htargets & _) Hup.
  assert (marked host t el') as Hmarked.
  { intros Hparse. rewrite Hparse in Hup.
    apply (update_first_contains_text _ _ _ _ _ (contains_invalid_time U) Hup). }
  split; [|done]. split; [|split].
  - rewrite update_first_unfold in Hup. cbn in Hup.
    destruct (update_first_among _ _ ch) as [ch'|]; [|done].
    injection Hup as <-. by exists ls, ch'.
  - etrans; [|exact Htargets].
    eapply update_first_targets; [|exact Hup]. apply countdown_update_targets.
  - intros Hparse. right. by apply Hmarked.
Qed.

Lemma tile_element_untouched (T : Z) (f : node -> node) (t : Tile) (el : node) :
  tile_element host T t el ->
  update_first (matches_attr "data-countdown-for" (tile_id t)) f el = None ->
  marked host t el.
Proof.
  intros (_ & _ & Hbad) Hup Hparse. destruct (Hbad Hparse) as [Hin|]; [|done].
  destruct (update_first_some (tile_id t) f el Hin) as [el' Hel].
  congruence.
Qed.

Lemma tile_elements_targets (T : Z) (ts : list Tile) (row : list node)
    (id : string) :
  Forall2 (tile_element host T) ts row ->
  id ∉ tile_id <$> ts ->
  id ∉ countdown_targets_among row.
Proof.
  induction 1 as [|t el ts row (_ & Htargets & _) _ IH]; cbn;
    [by intros _ ?%elem_of_nil|].
  intros Hnot [Hin|Hin]%elem_of_app.
  - apply Htargets in Hin. apply Hnot.
    destruct (reached _ T); [by apply elem_of_nil in Hin|].
    apply list_elem_of_singleton in Hin as ->. apply list_elem_of_here.
  - apply IH; [|done]. intros ?. apply Hnot. by apply list_elem_of_further.
Qed.

(** A later render time only takes countdowns away. *)
Lemma tile_element_found_locked (T : Z) (t : Tile) (el : node) (r : Z) :
  tile_element host T t el ->
  tile_id t ∈ countdown_targets el ->
  parseTime host (tile_revealAt t) = Some r ->
  T < r.
Proof.
  intros (_ & Htargets & _) Hin Hparse. apply Htargets in Hin.
  rewrite Hparse in Hin. cbn in Hin.
  destruct (r <=? T) eqn:E; [by apply elem_of_nil in Hin|lia].
Qed.
End TileElement.

Section Running.
Context (host : Host) (clock : nat -> Z) (TILES : list Tile) (variant : Variant).
Hypothesis clock_monotone : monotone clock.
Hypothesis distinct_ids : NoDup (tile_id <$> TILES).

(** The countdown loop, run on a track rendered at [T] with the
    instant [U] read earlier: it returns, and leaves a settled track,
    provided the renders it starts return and settle theirs. *)
Lemma for_each_countdown_step_running (fuel : nat) (U : Z) (nu : nat) :
  U = clock nu ->
  (forall st n,
     (pending host TILES (clock n) < fuel)%nat ->
     exists st' n' T',
       renderTrack host clock TILES variant fuel {| page := st; reads := n |}
         = Ok tt {| page := st'; reads := n' |}
       /\ (n <= n')%nat /\ clock n <= T' /\ settled host TILES T' st') ->
  forall (post pre : list Tile) (rpre rpost : list node) (st : state)
         (n : nat) (T : Z),
    TILES = pre ++ post ->
    trackRow st = rpre ++ rpost ->
    Forall2 (fun t el => tile_element host T t el /\ marked host t el) pre rpre ->
    Forall2 (tile_element host T) post rpost ->
    (nu <= n)%nat ->
    (pending host TILES T <= fuel)%nat ->
    exists st' n' T',
      for_each post
        (countdown_step host (renderTrack host clock TILES variant fuel) U)
        {| page := st; reads := n |}
        = Ok tt {| page := st'; reads := n' |}
      /\ (n <= n')%nat /\ T <= T' /\ settled host TILES T' st'.
Proof.
  intros HU Hrender.
  induction post as [|t post IH];
    intros pre rpre rpost st n T HT Hrow Hpre Hpost Hnu Hfuel.
  - apply Forall2_nil_inv_l in Hpost as ->. rewrite app_nil_r in HT, Hrow.
    exists st, n, T. split; [done|]. split; [lia|]. split; [lia|].
    unfold settled. by rewrite HT, Hrow.
  - apply Forall2_cons_inv_l in Hpost as (el & rpost' & Hel & Hpost & ->).
    assert ((tile_id t ∉ (tile_id <$> pre)) /\ (tile_id t ∉ (tile_id <$> post)))
      as [Hid_pre Hid_post].
    { pose proof distinct_ids as Hnd. rewrite HT, fmap_app in Hnd.
      apply NoDup_app in Hnd as (_ & Hdisj & Hnd).
      rewrite fmap_cons in Hnd, Hdisj. apply NoDup_cons in Hnd as [? _].
      split; [|done]. intros Hin. apply (Hdisj _ Hin), list_elem_of_here. }
    assert (t ∈ TILES) as Hin.
    { rewrite HT. apply elem_of_app. right. apply list_elem_of_here. }
    (* the rest of the loop, once the element of [t] is settled *)
    assert (forall stx nx Tx rowx,
              trackRow stx = rowx ->
              Forall2 (fun t el => tile_element host Tx t el /\ marked host t el)
                (pre ++ [t]) (take (S (length pre)) rowx) ->
              Forall2 (tile_element host Tx) post (drop (S (length pre)) rowx) ->
              (nu <= nx)%nat -> (pending host TILES Tx <= fuel)%nat ->
              exists st' n' T',
                for_each post
                  (countdown_step host
                     (renderTrack host clock TILES variant fuel) U)
                  {| page := stx; reads := nx |}
                  = Ok tt {| page := st'; reads := n' |}
                /\ (nx <= n')%nat /\ Tx <= T' /\ settled host TILES T' st')
      as Hrest.
    { intros stx nx Tx rowx Hrowx Hpre' Hpost' Hnx Hfuelx.
      apply (IH (pre ++ [t]) (take (S (length pre)) rowx)
               (drop (S (length pre)) rowx)); try done.
      - by rewrite <- app_assoc.
      - by rewrite take_drop. }
    pose proof (Forall2_length _ _ _ Hpre) as Hlen.
    set (p := matches_attr "data-countdown-for" (tile_id t)).
    set (f := countdown_update (parseTime host (tile_revealAt t)) U).
    assert (update_first_among p f (rpre ++ el :: rpost') =
            match update_first p f el with
            | Some el' => Some (rpre ++ el' :: rpost')
            | None => None
            end) as Hamong.
    { unfold p. rewrite update_first_among_app_none.
      - cbn [update_first_among]. fold p.
        destruct (update_first p f el); [done|].
        unfold p. rewrite update_first_among_none; [done|].
        by apply (tile_elements_targets host T post).
      - apply (tile_elements_targets host T pre); [|done].
        eapply Forall2_impl; [exact Hpre|]. by intros ? ? [? _]. }
    cbn [for_each]. unfold bind at 1. unfold countdown_step at 1.
    unfold bind at 1. unfold get at 1. cbn [page reads].
    rewrite Hrow. fold p f. rewrite Hamong.
    destruct (update_first p f el) as [el'|] eqn:Hup.
    + destruct (tile_element_update host T U t el el' Hel Hup) as [Hel' Hm'].
      unfold bind at 1. unfold modify at 1. cbn [page reads].
      assert (Forall2 (fun t el => tile_element host T t el /\ marked host t el)
                (pre ++ [t]) (take (S (length pre)) (rpre ++ el' :: rpost'))
              /\ Forall2 (tile_element host T) post
                   (drop (S (length pre)) (rpre ++ el' :: rpost')))
        as [Hpre1 Hpost1].
      { rewrite Hlen.
        replace (rpre ++ el' :: rpost') with ((rpre ++ [el']) ++ rpost')
          by (by rewrite <- app_assoc).
        replace (S (length rpre)) with (length (rpre ++ [el']))
          by (rewrite length_app; cbn; lia).
        rewrite take_app_length, drop_app_length. split; [|done].
        apply Forall2_app; [done|].
        constructor; [by split|constructor]. }
      destruct (parseTime host (tile_revealAt t)) as [r|] eqn:Hparse.
      * destruct (r - U <=? 0) eqn:Hdue.
        -- (* the reveal has just happened: a render is started *)
           assert (T < r) as HTr.
           { apply (tile_element_found_locked host T t el r Hel); [|done].
             by apply (update_first_found (tile_id t) f el el'). }
           assert (r <= clock n) as Hrn.
           { pose proof (clock_monotone nu n Hnu). lia. }
           destruct (Hrender (set_trackRow (rpre ++ el' :: rpost') st) n)
             as (st2 & n2 & T2 & Hrun & Hn2 & HT2 & Hsettled).
           { pose proof (pending_drops host TILES T (clock n) t r Hin Hparse HTr Hrn).
             lia. }
           rewrite Hrun.
           unfold settled in Hsettled.
           destruct (Hrest st2 n2 T2 (trackRow st2) eq_refl)
             as (st' & n' & T' & Hrun' & Hn' & HT' & Hsettled').
           ++ rewrite HT in Hsettled.
              replace (pre ++ t :: post) with ((pre ++ [t]) ++ post) in Hsettled
                by (by rewrite <- app_assoc).
              apply Forall2_app_inv_l in Hsettled as (r1 & r2 & H1 & H2 & ->).
              apply Forall2_length in H1 as Hl1.
              rewrite length_app in Hl1. cbn in Hl1.
              replace (S (length pre)) with (length r1) by lia.
              by rewrite take_app_length.
           ++ rewrite HT in Hsettled.
              replace (pre ++ t :: post) with ((pre ++ [t]) ++ post) in Hsettled
                by (by rewrite <- app_assoc).
              apply Forall2_app_inv_l in Hsettled as (r1 & r2 & H1 & H2 & ->).
              apply Forall2_length in H1 as Hl1.
              rewrite length_app in Hl1. cbn in Hl1.
              replace (S (length pre)) with (length r1) by lia.
              rewrite drop_app_length.
              eapply Forall2_impl; [exact H2|]. by intros ? ? [? _].
           ++ lia.
           ++ pose proof (pending_antitone host TILES T T2). lia.
           ++ exists st', n', T'. split; [exact Hrun'|].
              split; [lia|]. split; [lia|done].
        -- unfold ret at 1.
           apply (Hrest _ n T (rpre ++ el' :: rpost')); done.
      * unfold ret at 1.
        apply (Hrest _ n T (rpre ++ el' :: rpost')); done.
    + unfold ret at 1.
      pose proof (tile_element_untouched host T f t el Hel Hup) as Hm.
      apply (Hrest st n T (rpre ++ el :: rpost')); try done.
      * rewrite Hlen.
        replace (rpre ++ el :: rpost') with ((rpre ++ [el]) ++ rpost')
          by (by rewrite <- app_assoc).
        replace (S (length rpre)) with (length (rpre ++ [el]))
          by (rewrite length_app; cbn; lia).
        rewrite take_app_length.
        apply Forall2_app; [done|].
        constructor; [by split|constructor].
      * rewrite Hlen.
        replace (rpre ++ el :: rpost') with ((rpre ++ [el]) ++ rpost')
          by (by rewrite <- app_assoc).
        replace (S (length rpre)) with (length (rpre ++ [el]))
          by (rewrite length_app; cbn; lia).
        by rewrite drop_app_length.
Qed.
End Running.

Lemma pending_le_length (host : Host) (TILES : list Tile) (T : Z) :
  (pending host TILES T <= length TILES)%nat.
Proof. unfold pending. apply List.filter_length_le. Qed.

(** A render pass under a clock that never goes back, over tiles with
    pairwise distinct ids: with more fuel than tiles still to be
    revealed it returns, having read the clock at least once, and leaves
    a settled track rendered no earlier than it started. *)
Lemma renderTrack_running (host : Host) (clock : nat -> Z) (TILES : list Tile)
    (variant : Variant) :
  monotone clock ->
  NoDup (tile_id <$> TILES) ->
  forall (fuel : nat) (st : state) (n : nat),
    (pending host TILES (clock n) < fuel)%nat ->
    exists st' n' T',
      renderTrack host clock TILES variant fuel {| page := st; reads := n |}
        = Ok tt {| page := st'; reads := n' |}
      /\ (n <= n')%nat /\ clock n <= T' /\ settled host TILES T' st'.
Proof.
  intros Hmono Hnd. induction fuel as [|fuel IH]; intros st n Hfuel; [lia|].
  cbn [renderTrack].
  unfold bind at 1. unfold modify at 1. cbn [page reads].
  unfold bind at 1. unfold new_Date at 1. cbn [page reads].
  unfold bind at 1. unfold modify at 1. cbn [page reads].
  unfold bind at 1. rewrite (for_each_append_tile host variant (clock n)).
  unfold updateCountdowns_with. unfold bind at 1. unfold new_Date at 1.
  cbn [page reads].
  set (st1 := set_trackRow _ _).
  destruct (for_each_countdown_step_running host clock TILES variant Hmono Hnd
              fuel (clock (S n)) (S n) eq_refl IH TILES [] []
              (map (render_tile host variant (clock n) (imagesById st)) TILES)
              st1 (S (S n)) (clock n))
    as (st' & n' & T' & Hrun & Hn' & HT' & Hsettled);
    [reflexivity|reflexivity|constructor| |lia|lia|].
  - apply Forall2_fmap_r, Forall_Forall2_diag, Forall_forall.
    intros t _. apply render_tile_element.
  - exists st', n', T'. split; [exact Hrun|]. split; [lia|done].
Qed.

(** ** Image store *)


Lemma loadImages_stored (m items : gmap string string) :
  loadImages (Items (<[STORAGE_KEY := Json.stringify m]> items))
    = Normal (Json.of_strings m).
Proof.
  unfold loadImages, getItem, try_catch. rewrite lookup_insert_eq.
  assert (truthy (Some (Json.stringify m)) = true) as -> by reflexivity.
  unfold default. cbn [from_option id]. by rewrite JsonRoundTrip.parse_stringify.
Qed.



Section Handlers.
Context (host : Host) (variant : Variant) (TILES : list Tile).

End Handlers.

(** ** Malformed schedules *)

Section Malformed.
Context (host : Host) (variant : Variant) (now : Z).
Context (images : gmap string string).

(** The element of a tile whose schedule does not parse: marked as
    locked, and carrying the marker text. *)
Lemma rendered_tile_malformed (tile : Tile) :
  parseTime host (tile_revealAt tile) = None ->
  exists ls ch,
    rendered_tile host variant now images tile =
      Element "div"
        [("class", "tile " +:+ rarityClass (tile_rarity tile) +:+ " " +:+ "locked");
         ("data-id", tile_id tile)] ls ch
    /\ contains_text "Invalid time"
         (rendered_tile host variant now images tile) = true.
Proof.
  intros Hparse. unfold rendered_tile.
  pose proof (render_tile_targets host variant now images tile) as Ht.
  destruct (render_tile_root host variant now images tile) as (ls & ch & Hroot).
  rewrite Hparse in *. cbn [reached] in *.
  destruct (update_first_some (tile_id tile) (countdown_update None now)
              (render_tile host variant now images tile)) as [el Hel];
    [rewrite Ht; apply list_elem_of_here|].
  rewrite Hel.
  pose proof (update_first_contains_text _ _ "Invalid time" _ _
                (contains_invalid_time now) Hel) as Htext.
  rewrite Hroot, update_first_unfold in Hel. cbn [matches_attr get_attr] in Hel.
  cbn in Hel.
  destruct (update_first_among _ _ ch) as [ch'|]; [|done].
  injection Hel as <-. by exists ls, ch'.
Qed.
End Malformed.

Lemma frozen_monotone (now : Z) : monotone (frozen now).
Proof. intros i j _. unfold frozen. lia. Qed.

(** With the clock standing still, the element a tile gets in the track
    is the one it gets in a configuration of its own. *)
Lemma renderTrack_per_tile (host : Host) (variant : Variant) (TILES : list Tile)
    (now : Z) (fuel : nat) (st : state) (n : nat) (j : nat) (t : Tile) :
  NoDup (tile_id <$> TILES) ->
  TILES !! j = Some t ->
  exists st1 st2 el,
    renderTrack host (frozen now) TILES variant (S fuel)
      {| page := st; reads := n |}
      = Ok tt {| page := st1; reads := S (S n) |}
    /\ renderTrack host (frozen now) [t] variant (S fuel)
         {| page := st; reads := n |}
         = Ok tt {| page := st2; reads := S (S n) |}
    /\ trackRow st2 = [el]
    /\ trackRow st1 !! j = Some el.
Proof.
  intros Hnd Hj.
  exists (after_render host variant TILES now st),
         (after_render host variant [t] now st),
         (rendered_tile host variant now (imagesById st) t).
  split; [by apply renderTrack_frozen|].
  split; [apply renderTrack_frozen; apply NoDup_singleton|].
  split; [done|]. cbn [after_render trackRow]. by rewrite list_lookup_fmap, Hj.
Qed.

(** C6. A tile whose [revealAt] does not parse is never revealed, at any
    instant. A render pass still returns (the clock never going back,
    the ids being distinct): every tile has its element in the track,
    and the element of this tile is marked locked and shows the text
    "Invalid time". With the clock standing still, every tile gets the
    element it would get in a configuration of its own. *)
Theorem malformed_revealAt_isolated (host : Host) (variant : Variant)
    (TILES : list Tile) (clock : nat -> Z) (fuel : nat) (st : state) (n : nat)
    (i : nat) (tile : Tile) :
  monotone clock ->
  NoDup (tile_id <$> TILES) ->
  (length TILES < fuel)%nat ->
  TILES !! i = Some tile ->
  parseTime host (tile_revealAt tile) = None ->
  (forall now', isRevealed host tile now' = false)
  /\ (exists st' n',
        renderTrack host clock TILES variant fuel {| page := st; reads := n |}
          = Ok tt {| page := st'; reads := n' |}
        /\ length (trackRow st') = length TILES
        /\ (forall (j : nat) (t : Tile),
              TILES !! j = Some t ->
              exists el T ls ch,
                trackRow st' !! j = Some el
                /\ el = Element "div"
                          [("class", "tile " +:+ rarityClass (tile_rarity t)
                                       +:+ " " +:+
                                       (if reached (parseTime host (tile_revealAt t)) T
                                        then "revealed" else "locked"));
                           ("data-id", tile_id t)] ls ch)
        /\ (exists el ls ch,
              trackRow st' !! i = Some el
              /\ el = Element "div"
                        [("class", "tile " +:+ rarityClass (tile_rarity tile)
                                     +:+ " " +:+ "locked");
                         ("data-id", tile_id tile)] ls ch
              /\ contains_text "Invalid time" el = true))
  /\ (forall (now : Z) (j : nat) (t : Tile),
        TILES !! j = Some t ->
        exists st1 st2 el,
          renderTrack host (frozen now) TILES variant fuel
            {| page := st; reads := n |}
            = Ok tt {| page := st1; reads := S (S n) |}
          /\ renderTrack host (frozen now) [t] variant fuel
               {| page := st; reads := n |}
               = Ok tt {| page := st2; reads := S (S n) |}
          /\ trackRow st2 = [el]
          /\ trackRow st1 !! j = Some el).
Proof.
  intros Hmono Hnd Hfuel Hi Hparse. split; [|split].
  - intros now'. unfold isRevealed. by rewrite Hparse.
  - destruct (renderTrack_running host clock TILES variant Hmono Hnd fuel st n)
      as (st' & n' & T' & Hrun & _ & _ & Hsettled).
    { pose proof (pending_le_length host TILES (clock n)). lia. }
    exists st', n'. split; [exact Hrun|]. unfold settled in Hsettled.
    split; [symmetry; by eapply Forall2_length|]. split.
    + intros j t Hj.
      destruct (Forall2_lookup_l _ _ _ _ _ Hsettled Hj)
        as (el & Hel & ((ls & ch & Hroot) & _) & _).
      by exists el, T', ls, ch.
    + destruct (Forall2_lookup_l _ _ _ _ _ Hsettled Hi)
        as (el & Hel & ((ls & ch & Hroot) & _) & Hmarked).
      exists el, ls, ch. split; [done|].
      rewrite Hparse in Hroot. split; [exact Hroot|]. by apply Hmarked.
  - intros now j t Hj. destruct fuel as [|fuel]; [lia|].
    by apply renderTrack_per_tile.
Qed.

(** ** Render pass *)

(** C9. With the clock standing still, a second render pass right after
    the first leaves the page exactly as the first did, and the track and
    the hint it shows depend on the stored images alone. *)
Theorem renderTrack_idempotent (host : Host) (variant : Variant)
    (TILES : list Tile) (now : Z) (fuel : nat) (st : state) (n : nat) :
  NoDup (tile_id <$> TILES) ->
  exists st1,
    renderTrack host (frozen now) TILES variant (S fuel)
      {| page := st; reads := n |}
      = Ok tt {| page := st1; reads := S (S n) |}
    /\ renderTrack host (frozen now) TILES variant (S fuel)
         {| page := st1; reads := S (S n) |}
         = Ok tt {| page := st1; reads := S (S (S (S n))) |}
    /\ forall (st' : state) (n' : nat),
         imagesById st' = imagesById st ->
         exists st1',
           renderTrack host (frozen now) TILES variant (S fuel)
             {| page := st'; reads := n' |}
             = Ok tt {| page := st1'; reads := S (S n') |}
           /\ trackRow st1' = trackRow st1
           /\ trackHint st1' = trackHint st1.
Proof.
  intros Hnd. exists (after_render host variant TILES now st).
  split; [by apply renderTrack_frozen|]. split.
  - by rewrite renderTrack_frozen.
  - intros st' n' Himages. exists (after_render host variant TILES now st').
    split; [by apply renderTrack_frozen|].
    cbn [after_render trackRow trackHint]. by rewrite Himages.
Qed.

(** ** Upload completion *)

Section Upload.
Context (host : Host) (variant : Variant) (TILES : list Tile).

Lemma openTileModal_frame (clock : nat -> Z) (tile : Tile) (w : world) :
  exists w',
    openTileModal host clock variant tile w = Ok tt w'
    /\ imagesById (page w') = imagesById (page w)
    /\ localStorage (page w') = localStorage (page w)
    /\ activeTileId (page w') = Some (tile_id tile).
Proof.
  unfold openTileModal, bind, modify, new_Date, get. cbn [page reads].
  eexists. split; [reflexivity|]. by cbn.
Qed.

(** The part of the change handler that runs after the file was read:
    whatever the clock does and however the run ends, the data URL is
    in memory under the key that [activeTileId] gives at that moment,
    and, the storage being available, the whole mapping is persisted. *)
Lemma filePicker_change_resume_store (clock : nat -> Z) (fuel : nat)
    (dataUrl : string) (st : state) (n : nat) :
  let images := <[property_key (activeTileId st) := dataUrl]> (imagesById st) in
  let st' :=
    page (final_world
            (filePicker_change_resume host clock TILES variant fuel dataUrl
               {| page := st; reads := n |})) in
  imagesById st' = images
  /\ forall items,
       localStorage st = Items items ->
       localStorage st' = Items (<[STORAGE_KEY := Json.stringify images]> items).
Proof.
  intros images st'. subst st'.
  set (r := filePicker_change_resume host clock TILES variant fuel dataUrl _).
  destruct (localStorage st) as [|items] eqn:Hls.
  - assert (r = Err SecurityError
                  {| page := set_imagesById images st; reads := n |}) as ->.
    { subst r. unfold filePicker_change_resume.
      unfold bind at 1. unfold modify at 1. cbn [page reads].
      unfold bind at 1. unfold saveImages at 1.
      cbn [page reads set_imagesById localStorage]. by rewrite Hls. }
    by split.
  - set (ls := Items (<[STORAGE_KEY := Json.stringify images]> items)).
    assert (r = (renderTrack host clock TILES variant fuel ;;;
                 let* st := get in
                 match find_active TILES (activeTileId st) with
                 | Some tile => openTileModal host clock variant tile
                 | None => ret tt
                 end)
                  {| page := set_localStorage ls (set_imagesById images st);
                     reads := n |}) as ->.
    { subst r. unfold filePicker_change_resume.
      unfold bind at 1. unfold modify at 1. cbn [page reads].
      unfold bind at 1. unfold saveImages at 1.
      cbn [page reads set_imagesById localStorage]. by rewrite Hls. }
    destruct (store_is_preserved host clock TILES variant fuel images ls
                {| page := set_localStorage ls (set_imagesById images st);
                   reads := n |}) as [Himg Hstore]; [by split|].
    split; [exact Himg|]. intros ? [= <-]. exact Hstore.
Qed.

(** With the storage available, a clock that never goes back and
    pairwise distinct ids, that part of the handler runs to its end. *)
Lemma filePicker_change_resume_returns (clock : nat -> Z) (fuel : nat)
    (dataUrl : string) (st : state) (n : nat) (items : gmap string string) :
  monotone clock ->
  NoDup (tile_id <$> TILES) ->
  (length TILES < fuel)%nat ->
  localStorage st = Items items ->
  exists st' n',
    filePicker_change_resume host clock TILES variant fuel dataUrl
      {| page := st; reads := n |}
      = Ok tt {| page := st'; reads := n' |}.
Proof.
  intros Hmono Hnd Hfuel Hls.
  unfold filePicker_change_resume.
  unfold bind at 1. unfold modify at 1. cbn [page reads].
  unfold bind at 1. unfold saveImages at 1.
  cbn [page reads set_imagesById localStorage imagesById]. rewrite Hls.
  cbn [setItem].
  set (st1 := set_localStorage _ _).
  destruct (renderTrack_running host clock TILES variant Hmono Hnd fuel st1 n)
    as (st2 & n2 & _ & Hrun & _).
  { pose proof (pending_le_length host TILES (clock n)). lia. }
  unfold bind at 1. rewrite Hrun.
  unfold bind at 1. unfold get at 1. cbn [page reads].
  destruct (find_active TILES (activeTileId st2)) as [tile|].
  - edestruct (openTileModal_frame clock tile) as ([st' n'] & Hopen & _).
    exists st', n'. exact Hopen.
  - unfold ret. by do 2 eexists.
Qed.
End Upload.

(** C10. The change handler checks [activeTileId] only before it awaits
    the file; the write after the await uses the [activeTileId] of that
    later moment. If [closeModal] ran in between, the upload is stored
    under the key "null", no other key changes, and the mapping with that
    key is what gets persisted, whatever the clock does and however the
    run ends; the run does reach its end when the clock never goes back
    and the ids are distinct. Without [closeModal] the upload goes under
    the id of the open tile. *)
Theorem upload_completion_after_closeModal (host : Host) (variant : Variant)
    (TILES : list Tile) (clock : nat -> Z) (fuel : nat) (st : state) (n : nat)
    (id dataUrl : string) (file : File) :
  activeTileId st = Some id ->
  truthy (Some id) = true ->
  startsWith "image/" (file_type file) = true ->
  filePicker_change (Some file) st = AwaitRead file
  /\ (exists st0,
        closeModal {| page := st; reads := n |}
          = Ok tt {| page := st0; reads := n |}
        /\ activeTileId st0 = None
        /\ (let st' :=
              page (final_world
                      (filePicker_change_resume host clock TILES variant fuel
                         dataUrl {| page := st0; reads := n |})) in
            imagesById st' = <["null" := dataUrl]> (imagesById st)
            /\ (forall k, k <> "null" -> imagesById st' !! k = imagesById st !! k)
            /\ forall items,
                 localStorage st = Items items ->
                 localStorage st' =
                   Items (<[STORAGE_KEY :=
                              Json.stringify (<["null" := dataUrl]> (imagesById st))]>
                            items)
                 /\ loadImages (localStorage st') =
                      Normal (Json.of_strings
                                (<["null" := dataUrl]> (imagesById st))))
        /\ (forall items,
              monotone clock ->
              NoDup (tile_id <$> TILES) ->
              (length TILES < fuel)%nat ->
              localStorage st = Items items ->
              exists st' n',
                filePicker_change_resume host clock TILES variant fuel
                  dataUrl {| page := st0; reads := n |}
                  = Ok tt {| page := st'; reads := n' |}))
  /\ imagesById
       (page (final_world
                (filePicker_change_resume host clock TILES variant fuel dataUrl
                   {| page := st; reads := n |})))
     = <[id := dataUrl]> (imagesById st).
Proof.
  intros Hact Htruthy Himage. split; [|split].
  - unfold filePicker_change. by rewrite Hact, Htruthy, Himage.
  - assert (exists st0,
              closeModal {| page := st; reads := n |}
                = Ok tt {| page := st0; reads := n |}
              /\ activeTileId st0 = None
              /\ imagesById st0 = imagesById st
              /\ localStorage st0 = localStorage st)
      as (st0 & Hclose & Hact0 & Himg0 & Hls0).
    { eexists. split; [reflexivity|]. by cbn. }
    exists st0. split; [exact Hclose|]. split; [exact Hact0|]. split.
    + destruct (filePicker_change_resume_store host variant TILES clock fuel
                  dataUrl st0 n) as [Himg Hstore].
      rewrite Hact0, Himg0 in Himg, Hstore. cbn [property_key] in Himg, Hstore.
      cbn zeta. split; [exact Himg|]. split.
      * intros k Hk. rewrite Himg. by rewrite lookup_insert_ne.
      * intros items Hitems. rewrite Hls0 in Hstore.
        rewrite (Hstore items Hitems). split; [done|]. apply loadImages_stored.
    + intros items Hmono Hnd Hfuel Hitems.
      apply (filePicker_change_resume_returns host variant TILES clock fuel
               dataUrl st0 n items Hmono Hnd Hfuel). by rewrite Hls0.
  - destruct (filePicker_change_resume_store host variant TILES clock fuel
                dataUrl st n) as [Himg _].
    by rewrite Hact in Himg.
Qed.

(** * The script on concrete inputs *)

Example msToParts_example :
  msToParts 90061999 = {| days := 1; hours := 1; mins := 1; secs := 1 |}.
Proof. reflexivity. Qed.

Example parseTime_examples :
  parseTime ref_host "2025-12-21T19:00:00+01:00" = Some 1766340000000
  /\ parseTime ref_host "2025-12-21T18:00:00Z" = Some 1766340000000
  /\ parseTime ref_host "2025-12-21T19:00:00" = Some 1766340000000
  /\ parseTime ref_host "not-a-date" = None.
Proof. by repeat split. Qed.

Example Json_parse_examples :
  Json.parse " [1, -2.5e3, true, null, [[[]]], {}] "
    = Normal (Json.Arr [Json.Num "1"; Json.Num "-2.5e3"; Json.Bool true;
                        Json.Null; Json.Arr [Json.Arr [Json.Arr []]];
                        Json.Obj ∅])
  /\ Json.parse "{}" = Normal (Json.Obj ∅)
  /\ Json.parse "[1,]" = Throw SyntaxError
  /\ Json.parse "{" = Throw SyntaxError
  /\ Json.parse EmptyString = Throw SyntaxError.
Proof. repeat split; vm_compute; reflexivity. Qed.

Example Json_stringify_example :
  Json.stringify {[ "tile-01" := "data:image/png;base64,AAAA" ]}
    = "{" +:+ Json.quote "tile-01" +:+ ":"
        +:+ Json.quote "data:image/png;base64,AAAA" +:+ "}".
Proof. vm_compute. reflexivity. Qed.

(** The reveal falls between the clock read of the render and the one of
    the countdown update: the update starts a second render, which shows
    the tile revealed. With fuel for one render only the run is cut. *)
Example renderTrack_reenters :
  (exists st' ls ch,
     renderTrack ref_host (fun k => new_year_2025 - 1 + Z.of_nat k)
       [tile_new_year] Upload 2 {| page := initial_state; reads := 0 |}
       = Ok tt {| page := st'; reads := 4 |}
     /\ trackRow st' =
          [Element "div"
             [("class", "tile r-rare revealed"); ("data-id", "tile-ny")] ls ch])
  /\ (exists w,
        renderTrack ref_host (fun k => new_year_2025 - 1 + Z.of_nat k)
          [tile_new_year] Upload 1 {| page := initial_state; reads := 0 |}
          = OutOfFuel w).
Proof.
  split.
  - vm_compute. do 3 eexists. split; reflexivity.
  - vm_compute. by eexists.
Qed.

(** Two tiles with one id, the first locked and the second revealed: the
    countdown update finds the element of the first for the second, sees
    its reveal as just passed and renders again, without end. *)
Example renderTrack_repeated_id :
  exists w,
    renderTrack ref_host (frozen new_year_2025) [tile_twin; tile_new_year]
      Upload 5 {| page := initial_state; reads := 0 |}
      = OutOfFuel w.
Proof. vm_compute. by eexists. Qed.

Lemma distinct_ids_app : NoDup (tile_id <$> TILES_app).
Proof. apply (bool_decide_unpack _). vm_compute. exact I. Defined.

Lemma distinct_ids_malformed : NoDup (tile_id <$> TILES_malformed).
Proof. apply (bool_decide_unpack _). vm_compute. exact I. Defined.

(** A tile scheduled for 2025-01-01T00:00:00Z is revealed at that very
    instant. *)
Lemma isRevealed_spec_witness :
  parseTime ref_host (tile_revealAt tile_new_year) = Some new_year_2025
  /\ isRevealed ref_host tile_new_year new_year_2025 = true.
Proof.
  split; [reflexivity|].
  apply (proj2 (isRevealed_spec ref_host tile_new_year new_year_2025)).
  reflexivity.
Defined.

Lemma isRevealed_monotone_witness :
  new_year_2025 <= new_year_2026
  /\ isRevealed ref_host tile_new_year new_year_2025 = true
  /\ isRevealed ref_host tile_new_year new_year_2026 = true.
Proof.
  assert (new_year_2025 <= new_year_2026) as H1 by (vm_compute; discriminate).
  assert (isRevealed ref_host tile_new_year new_year_2025 = true) as H2
    by reflexivity.
  exact (conj H1 (conj H2
           (isRevealed_monotone ref_host tile_new_year
              new_year_2025 new_year_2026 H1 H2))).
Defined.

Lemma remaining_nonneg_zero_witness :
  1000 <= 2000 /\ partsToSeconds (remaining 1000 2000) = 0.
Proof.
  assert (1000 <= 2000) as H by (vm_compute; discriminate).
  exact (conj H (proj2 (proj2 (remaining_nonneg_zero 1000 2000)) H)).
Defined.

(** Tiles 0 and 1 revealed, tile 2 locked: the answer is 2; when all are
    revealed it is -1. *)
Lemma nextUnrevealedIndex_witness :
  nextUnrevealedIndex ref_host TILES_app 1766430000000 = 2
  /\ nextUnrevealedIndex ref_host TILES_app new_year_2026 = -1.
Proof.
  split.
  - destruct (nextUnrevealedIndex_first_locked ref_host TILES_app 1766430000000)
      as [[E _]|(i & t & E & _)]; reflexivity.
  - reflexivity.
Defined.

(** A clock that advances by a millisecond at every read. *)
Lemma ticking_monotone (start : Z) : monotone (fun k => start + Z.of_nat k).
Proof. intros i j Hij. lia. Defined.

Lemma malformed_revealAt_witness :
  TILES_malformed !! 0%nat =
    Some {| tile_id := "tile-01"; tile_title := "Operator Card";
            tile_rarity := "rare"; tile_revealAt := "not-a-date";
            tile_imageUrl := None; tile_icon := Some "🎭" |}
  /\ parseTime ref_host "not-a-date" = None
  /\ exists st' n',
       renderTrack ref_host (fun k => new_year_2025 + Z.of_nat k)
         TILES_malformed Upload 3 {| page := initial_state; reads := 0 |}
         = Ok tt {| page := st'; reads := n' |}
       /\ length (trackRow st') = 2%nat.
Proof.
  split; [reflexivity|]. split; [reflexivity|].
  destruct (malformed_revealAt_isolated ref_host Upload TILES_malformed
              (fun k => new_year_2025 + Z.of_nat k) 3 initial_state 0 0
              {| tile_id := "tile-01"; tile_title := "Operator Card";
                 tile_rarity := "rare"; tile_revealAt := "not-a-date";
                 tile_imageUrl := None; tile_icon := Some "🎭" |}
              (ticking_monotone new_year_2025) distinct_ids_malformed
              ltac:(cbn; lia) eq_refl eq_refl)
    as (_ & (st' & n' & Hrun & Hlen & _) & _).
  exists st', n'. split; [exact Hrun|exact Hlen].
Defined.




Lemma renderTrack_idempotent_witness :
  exists st1,
    renderTrack ref_host (frozen new_year_2025) TILES_app Upload 1
      {| page := initial_state; reads := 0 |}
      = Ok tt {| page := st1; reads := 2 |}
    /\ renderTrack ref_host (frozen new_year_2025) TILES_app Upload 1
         {| page := st1; reads := 2 |}
         = Ok tt {| page := st1; reads := 4 |}.
Proof.
  destruct (renderTrack_idempotent ref_host Upload TILES_app new_year_2025 0
              initial_state 0 distinct_ids_app) as (st1 & H1 & H2 & _).
  exists st1. split; [exact H1|exact H2].
Defined.

Lemma upload_completion_witness :
  exists st0,
    closeModal {| page := set_activeTileId (Some "tile-01") initial_state;
                  reads := 0 |}
      = Ok tt {| page := st0; reads := 0 |}
    /\ imagesById
         (page (final_world
                  (filePicker_change_resume ref_host
                     (fun k => new_year_2026 + Z.of_nat k)
                     TILES_app Upload 7 "data:image/png;base64,AAAA"
                     {| page := st0; reads := 0 |})))
       = {[ "null" := "data:image/png;base64,AAAA" ]}.
Proof.
  destruct (upload_completion_after_closeModal ref_host Upload TILES_app
              (fun k => new_year_2026 + Z.of_nat k) 7
              (set_activeTileId (Some "tile-01") initial_state) 0
              "tile-01" "data:image/png;base64,AAAA"
              {| file_type := "image/png" |}
              eq_refl eq_refl eq_refl)
    as (_ & (st0 & Hclose & _ & (Himg & _) & _) & _).
  exists st0. split; [exact Hclose|exact Himg].
Defined.

(** * Further properties of the scripts *)

(** ** Reveal tests and countdown steps *)


Lemma wholeSeconds_step (ms : Z) :
  wholeSeconds (ms - 1000) = Z.max 0 (wholeSeconds ms - 1).
Proof.
  unfold wholeSeconds.
  replace (ms - 1000) with (ms + (-1) * 1000) by lia.
  rewrite Z.div_add by lia. lia.
Qed.

Lemma wholeSeconds_monotone (ms1 ms2 : Z) :
  ms1 <= ms2 -> wholeSeconds ms1 <= wholeSeconds ms2.
Proof.
  intros H. unfold wholeSeconds.
  pose proof (Z.div_le_mono ms1 ms2 1000). lia.
Qed.

(** X2. The countdown of a tile never goes up as time passes, and a
    second later it shows exactly one second less, until it stays at
    zero. *)
Theorem remaining_steps_down (revealAt now1 now2 : Z) :
  now1 <= now2 ->
  partsToSeconds (remaining revealAt now2)
    <= partsToSeconds (remaining revealAt now1)
  /\ partsToSeconds (remaining revealAt (now1 + 1000))
     = Z.max 0 (partsToSeconds (remaining revealAt now1) - 1).
Proof.
  intros Hle. unfold remaining. rewrite !partsToSeconds_msToParts. split.
  - apply wholeSeconds_monotone. lia.
  - replace (revealAt - (now1 + 1000)) with (revealAt - now1 - 1000) by lia.
    apply wholeSeconds_step.
Qed.

(** ** Reset *)

Lemma preserves_closeModal (I : state -> Prop) :
  (forall a st, I st -> I (set_activeTileId a st)) ->
  (forall m st, I st -> I (set_modal m st)) ->
  preserves I closeModal.
Proof.
  intros Ha Hm. unfold closeModal. apply preserves_modify.
  intros st Hst. by apply Ha, Hm.
Qed.

Lemma of_strings_empty : Json.of_strings ∅ = Json.Obj ∅.
Proof. unfold Json.of_strings. by rewrite fmap_empty. Qed.

Section Reset.
Context (host : Host) (clock : nat -> Z) (TILES : list Tile).

(** X3. The reset button empties the image mapping, whatever the clock
    does and however the run ends; with the storage available the
    empty mapping is what is persisted and what [loadImages] reads
    back, and, the clock never going back and the ids being distinct,
    the handler runs to its end and leaves the modal closed. *)
Theorem resetBtn_click_clears (fuel : nat) (st : state) (n : nat) :
  let w' := final_world
              (resetBtn_click host clock TILES fuel {| page := st; reads := n |}) in
  imagesById (page w') = ∅
  /\ (forall items,
        localStorage st = Items items ->
        localStorage (page w')
          = Items (<[STORAGE_KEY := Json.stringify ∅]> items)
        /\ loadImages (localStorage (page w')) = Normal (Json.Obj ∅)
        /\ (monotone clock -> NoDup (tile_id <$> TILES) ->
            (length TILES < fuel)%nat ->
            exists st' n',
              resetBtn_click host clock TILES fuel {| page := st; reads := n |}
                = Ok tt {| page := st'; reads := n' |}
              /\ activeTileId st' = None
              /\ modalBackdrop_open (modal st') = false
              /\ length (trackRow st') = length TILES)).
Proof.
  intros w'. subst w'.
  set (r := resetBtn_click host clock TILES fuel _).
  destruct (localStorage st) as [|items] eqn:Hls.
  - assert (r = Err SecurityError
                  {| page := set_imagesById ∅ st; reads := n |}) as ->.
    { subst r. unfold resetBtn_click.
      unfold bind at 1. unfold modify at 1. cbn [page reads].
      unfold bind at 1. unfold saveImages at 1.
      cbn [page reads set_imagesById localStorage]. by rewrite Hls. }
    by split.
  - set (ls := Items (<[STORAGE_KEY := Json.stringify ∅]> items)).
    set (st1 := set_localStorage ls (set_imagesById ∅ st)).
    assert (r = (renderTrack host clock TILES Upload fuel ;;; closeModal)
                  {| page := st1; reads := n |}) as Hr.
    { subst r. unfold resetBtn_click.
      unfold bind at 1. unfold modify at 1. cbn [page reads].
      unfold bind at 1. unfold saveImages at 1.
      cbn [page reads set_imagesById localStorage imagesById]. by rewrite Hls. }
    assert (preserves (store_is ∅ ls)
              (renderTrack host clock TILES Upload fuel ;;; closeModal)) as Hkeep.
    { apply preserves_bind; [by apply preserves_renderTrack|]. intros _.
      by apply preserves_closeModal. }
    destruct (Hkeep {| page := st1; reads := n |}) as [Himg Hstore]; [by split|].
    rewrite Hr. split; [exact Himg|]. intros ? [= <-].
    split; [exact Hstore|]. split.
    { rewrite Hstore. subst ls. rewrite loadImages_stored.
      by rewrite of_strings_empty. }
    intros Hmono Hnd Hfuel.
    destruct (renderTrack_running host clock TILES Upload Hmono Hnd fuel st1 n)
      as (st2 & n2 & T2 & Hrun & _ & _ & Hsettled).
    { pose proof (pending_le_length host TILES (clock n)). lia. }
    unfold bind at 1. rewrite Hrun.
    eexists _, _. split; [reflexivity|]. cbn. split; [done|]. split; [done|].
    symmetry. by eapply Forall2_length.
Qed.

(** X4. With the storage unavailable the reset handler throws after it
    has emptied the mapping in memory: the track is not rendered again,
    and the modal stays as it is. *)
Theorem resetBtn_click_denied (fuel : nat) (st : state) (n : nat) :
  localStorage st = Denied ->
  resetBtn_click host clock TILES fuel {| page := st; reads := n |}
    = Err SecurityError {| page := set_imagesById ∅ st; reads := n |}.
Proof.
  intros Hls. unfold resetBtn_click.
  unfold bind at 1. unfold modify at 1. cbn [page reads].
  unfold bind at 1. unfold saveImages at 1.
  cbn [page reads set_imagesById localStorage]. by rewrite Hls.
Qed.
End Reset.

(** ** Uploads *)

Lemma find_active_id (TILES : list Tile) (id : string) (tile : Tile) :
  find_active TILES (Some id) = Some tile -> tile_id tile = id.
Proof.
  unfold find_active. intros H. apply List.find_some in H as [_ H].
  by apply String.eqb_eq in H.
Qed.

Section UploadFlow.
Context (host : Host) (clock : nat -> Z) (TILES : list Tile).

(** X5. With the storage unavailable, the completion of an upload
    throws once the image is in memory: nothing is persisted, the track
    is not rendered again and the modal is not refreshed. *)
Theorem filePicker_change_resume_denied (variant : Variant) (fuel : nat)
    (dataUrl : string) (st : state) (n : nat) :
  localStorage st = Denied ->
  filePicker_change_resume host clock TILES variant fuel dataUrl
    {| page := st; reads := n |}
    = Err SecurityError
        {| page := set_imagesById
                     (<[property_key (activeTileId st) := dataUrl]> (imagesById st))
                     st;
           reads := n |}.
Proof.
  intros Hls. unfold filePicker_change_resume.
  unfold bind at 1. unfold modify at 1. cbn [page reads].
  unfold bind at 1. unfold saveImages at 1.
  cbn [page reads set_imagesById localStorage]. by rewrite Hls.
Qed.

(** X6. An upload for the tile of the open modal, with the storage
    available, the clock never going back and distinct ids: the handler
    runs to its end, the image is stored under the id of the tile, the
    modal stays open on that tile, and its preview is the uploaded
    image. *)
Theorem filePicker_change_resume_shows_image (fuel : nat) (dataUrl : string)
    (st : state) (n : nat) (items : gmap string string) (tile : Tile) :
  monotone clock ->
  NoDup (tile_id <$> TILES) ->
  (length TILES < fuel)%nat ->
  localStorage st = Items items ->
  find_active TILES (activeTileId st) = Some tile ->
  truthy (Some dataUrl) = true ->
  exists st' n',
    filePicker_change_resume host clock TILES Upload fuel dataUrl
      {| page := st; reads := n |}
      = Ok tt {| page := st'; reads := n' |}
    /\ imagesById st' !! tile_id tile = Some dataUrl
    /\ activeTileId st' = Some (tile_id tile)
    /\ modalBackdrop_open (modal st') = true
    /\ modalTitle (modal st') = tile_title tile
    /\ modalPreview (modal st')
       = [Element "img"
            [("src", dataUrl); ("alt", tile_title tile +:+ " image")] [] []].
Proof.
  intros Hmono Hnd Hfuel Hls Hactive Hurl.
  destruct (activeTileId st) as [id|] eqn:Hact;
    [|unfold find_active in Hactive;
      by apply List.find_some in Hactive as [_ ?]].
  pose proof (find_active_id _ _ _ Hactive) as Hid.
  unfold filePicker_change_resume.
  unfold bind at 1. unfold modify at 1. cbn [page reads].
  unfold bind at 1. unfold saveImages at 1.
  cbn [page reads set_imagesById localStorage imagesById]. rewrite Hls, Hact.
  cbn [setItem property_key].
  set (images := <[id := dataUrl]> (imagesById st)).
  set (st1 := set_localStorage _ _).
  set (I := fun s : state => imagesById s = images /\ activeTileId s = Some id).
  assert (preserves I (renderTrack host clock TILES Upload fuel)) as Hkeep.
  { apply preserves_renderTrack; by intros ? ? [? ?]. }
  destruct (renderTrack_running host clock TILES Upload Hmono Hnd fuel st1 n)
    as (st2 & n2 & _ & Hrun & _).
  { pose proof (pending_le_length host TILES (clock n)). lia. }
  specialize (Hkeep {| page := st1; reads := n |}).
  rewrite Hrun in Hkeep. destruct Hkeep as [Himg2 Hact2]; [by split|].
  cbn [final_world page] in Himg2, Hact2.
  unfold bind at 1. rewrite Hrun.
  unfold bind at 1. unfold get at 1. cbn [page reads].
  rewrite Hact2, Hactive.
  unfold openTileModal, bind, modify, new_Date, get. cbn [page reads].
  eexists _, _. split; [reflexivity|].
  cbn [imagesById activeTileId modal set_modal set_activeTileId
       modalBackdrop_open modalTitle modalPreview].
  rewrite Himg2, Hid. subst images. rewrite lookup_insert_eq.
  unfold art_content. rewrite Hurl. by cbn.
Qed.

Lemma modalUploadBtn_click_opens (tile : Tile) (st : state) (n : nat) :
  activeTileId st = Some (tile_id tile) ->
  truthy (Some (tile_id tile)) = true ->
  find_active TILES (Some (tile_id tile)) = Some tile ->
  isRevealed host tile (clock n) = true ->
  modalUploadBtn_click host clock TILES {| page := st; reads := n |}
    = Ok tt
        {| page := set_filePicker
                     {| picker_value := EmptyString;
                        picker_clicks := S (picker_clicks (filePicker st)) |} st;
           reads := S n |}.
Proof.
  intros Hact Htruthy Hactive Hrev. unfold modalUploadBtn_click.
  unfold bind at 1. unfold get at 1. cbn [page reads].
  rewrite Hact, Htruthy. cbn [negb]. rewrite Hactive.
  unfold bind, new_Date. cbn [page reads]. rewrite Hrev. by cbn [negb].
Qed.

(** X7. Opening the modal of a tile enables the upload button exactly
    when the tile is revealed at that moment; a click on the enabled
    button, the clock never going back, opens the file chooser with its
    earlier selection cleared. *)
Theorem openTileModal_then_upload_click (tile : Tile) (st : state) (n : nat) :
  monotone clock ->
  find_active TILES (Some (tile_id tile)) = Some tile ->
  truthy (Some (tile_id tile)) = true ->
  exists st1,
    openTileModal host clock Upload tile {| page := st; reads := n |}
      = Ok tt {| page := st1; reads := S n |}
    /\ activeTileId st1 = Some (tile_id tile)
    /\ modalBackdrop_open (modal st1) = true
    /\ modalUploadBtn_disabled (modal st1) = negb (isRevealed host tile (clock n))
    /\ (isRevealed host tile (clock n) = true ->
        modalUploadBtn_click host clock TILES {| page := st1; reads := S n |}
          = Ok tt
              {| page := set_filePicker
                           {| picker_value := EmptyString;
                              picker_clicks := S (picker_clicks (filePicker st)) |}
                           st1;
                 reads := S (S n) |}).
Proof.
  intros Hmono Hactive Htruthy.
  unfold openTileModal, bind, modify, new_Date, get. cbn [page reads].
  eexists. split; [reflexivity|].
  cbn [activeTileId modal set_modal set_activeTileId modalBackdrop_open
       modalUploadBtn_disabled].
  split; [done|]. split; [done|]. split; [done|].
  intros Hrev.
  assert (isRevealed host tile (clock (S n)) = true) as Hrev'.
  { unfold isRevealed in *.
    destruct (parseTime host (tile_revealAt tile)) as [t|]; [|done].
    pose proof (Hmono n (S n)). lia. }
  by rewrite (modalUploadBtn_click_opens tile).
Qed.

(** X8. [closeModal] hides the modal and forgets the active tile but
    keeps the stored images, the track and the texts of the modal;
    closing twice is closing once, and with the modal closed neither a
    click on the upload button nor a chosen file has any effect. *)
Theorem closeModal_then_inert (st : state) (n : nat) (file : option File) :
  exists st1,
    closeModal {| page := st; reads := n |} = Ok tt {| page := st1; reads := n |}
    /\ activeTileId st1 = None
    /\ modalBackdrop_open (modal st1) = false
    /\ imagesById st1 = imagesById st
    /\ localStorage st1 = localStorage st
    /\ trackRow st1 = trackRow st
    /\ modalTitle (modal st1) = modalTitle (modal st)
    /\ modalPreview (modal st1) = modalPreview (modal st)
    /\ closeModal {| page := st1; reads := n |}
       = Ok tt {| page := st1; reads := n |}
    /\ modalUploadBtn_click host clock TILES {| page := st1; reads := n |}
       = Ok tt {| page := st1; reads := n |}
    /\ filePicker_change file st1 = Ignored.
Proof.
  eexists. split; [reflexivity|]. cbn.
  repeat (split; [done|]). by destruct file.
Qed.
End UploadFlow.

(** ** Attributes below a node *)

Lemma attr_values_unfold (k tag : string) (attrs : list (string * string))
    (ls : list (string * handler)) (ch : list node) :
  attr_values k (Element tag attrs ls ch) =
    (match get_attr k attrs with
     | Some v => [v]
     | None => []
     end ++ attr_values_among k ch)%list.
Proof.
  cbn [attr_values]. f_equal.
  induction ch as [|c ch IH]; cbn; [done|]. by rewrite IH.
Qed.

Lemma find_first_unfold (p : node -> bool) (tag : string)
    (attrs : list (string * string)) (ls : list (string * handler))
    (ch : list node) :
  find_first p (Element tag attrs ls ch) =
    if p (Element tag attrs ls ch) then Some (Element tag attrs ls ch)
    else find_first_among p ch.
Proof.
  cbn [find_first]. destruct (p _); [done|].
  induction ch as [|c ch IH]; cbn; [done|]. by rewrite IH.
Qed.

Lemma attr_values_text (k s : string) : attr_values k (Text s) = [].
Proof. reflexivity. Qed.

Lemma attr_values_text_nodes (k s : string) :
  attr_values_among k (text_nodes s) = [].
Proof. by destruct s. Qed.

Section AttrValues.
Context (k : string).

(** No node below [n] carries the value: the selector finds nothing. *)
Lemma find_first_none (c v : string) (n : node) :
  v ∉ attr_values k n -> find_first (matches_class_attr c k v) n = None.
Proof.
  induction n as [s|tag attrs ls ch IH] using node_nested_ind; [done|].
  rewrite attr_values_unfold, find_first_unfold. intros Hnot.
  assert (matches_class_attr c k v (Element tag attrs ls ch) = false) as ->.
  { unfold matches_class_attr, matches_attr.
    destruct (get_attr k attrs) as [v'|]; [|by rewrite andb_false_r].
    destruct (String.eqb v v') eqn:E; [|by rewrite andb_false_r].
    apply String.eqb_eq in E as <-. exfalso. apply Hnot, elem_of_app. left.
    apply list_elem_of_here. }
  assert (v ∉ attr_values_among k ch) as Hch.
  { intros Hin. apply Hnot, elem_of_app. by right. }
  clear Hnot. induction IH as [|x ch Hx _ IHch]; [done|].
  cbn in *. rewrite Hx, IHch; [done| |]; intros Hin; apply Hch, elem_of_app; auto.
Qed.

(** An update of the first match adds no value, provided [f] adds
    none. *)
Lemma update_first_attr_values (p : node -> bool) (f : node -> node)
    (n n' : node) :
  (forall x, attr_values k (f x) ⊆ attr_values k x) ->
  update_first p f n = Some n' ->
  attr_values k n' ⊆ attr_values k n.
Proof.
  intros Hf. revert n'.
  induction n as [s|tag attrs ls ch IH] using node_nested_ind; intros n'.
  - cbn. destruct (p _); [|done]. intros [= <-]. apply Hf.
  - rewrite update_first_unfold. destruct (p _); [intros [= <-]; apply Hf|].
    destruct (update_first_among p f ch) as [ch'|] eqn:E; [|done].
    intros [= <-]. rewrite !attr_values_unfold.
    assert (attr_values_among k ch' ⊆ attr_values_among k ch) as Hsub.
    { clear -IH E. revert ch' E.
      induction IH as [|c ch Hc _ IHch]; intros ch' E; [done|].
      cbn in E. destruct (update_first p f c) as [c'|] eqn:Ec.
      - injection E as <-. cbn. specialize (Hc _ eq_refl).
        intros x [?|?]%elem_of_app; apply elem_of_app; auto.
      - destruct (update_first_among p f ch) as [ch''|] eqn:Ech; [|done].
        injection E as <-. cbn. specialize (IHch _ eq_refl).
        intros x [?|?]%elem_of_app; apply elem_of_app; auto. }
    intros x [?|?]%elem_of_app; apply elem_of_app; auto.
Qed.

Lemma countdown_update_attr_values (revealAt : option Z) (now : Z) (x : node) :
  attr_values k (countdown_update revealAt now x) ⊆ attr_values k x.
Proof.
  destruct x as [s|tag attrs ls ch]; [by destruct revealAt|].
  assert (forall ch', attr_values_among k ch' = [] ->
            attr_values k (Element tag attrs ls ch')
              ⊆ attr_values k (Element tag attrs ls ch)) as H.
  { intros ch' E. rewrite !attr_values_unfold, E, app_nil_r.
    intros v Hv. apply elem_of_app. by left. }
  destruct revealAt as [t|];
    cbn [countdown_update set_children set_firstChild_text set_textContent].
  - destruct ch; apply H; unfold countdown_html; cbn;
      apply attr_values_text_nodes.
  - apply H, attr_values_text_nodes.
Qed.
End AttrValues.

(** Computes the attribute values of an element written out in full. *)
Ltac values_of_literal :=
  repeat first
    [ rewrite attr_values_unfold
    | rewrite attr_values_text
    | rewrite attr_values_text_nodes
    | progress cbn -[art_content text_nodes attr_values] ];
  try reflexivity.

Lemma art_content_no_id src alt icon fallback cls fs :
  attr_values "data-id" (art_content src alt icon fallback cls fs) = [].
Proof.
  unfold art_content. destruct (truthy src); [values_of_literal|].
  destruct cls, fs; cbn -[text_nodes attr_values]; values_of_literal.
Qed.

Lemma art_content_src src alt icon fallback cls fs :
  attr_values "src" (art_content src alt icon fallback cls fs) =
    if truthy src then [default EmptyString src] else [].
Proof.
  unfold art_content. destruct (truthy src); [values_of_literal|].
  destruct cls, fs; cbn -[text_nodes attr_values]; values_of_literal.
Qed.

(** ** Shape of the track *)

Section TrackShape.
Context (host : Host) (variant : Variant).

Lemma render_tile_ids (now : Z) (images : gmap string string) (tile : Tile) :
  attr_values "data-id" (render_tile host variant now images tile)
    = [tile_id tile].
Proof.
  unfold render_tile. destruct variant.
  - unfold render_tile_upload.
    destruct (reached _ now);
      cbn -[art_content text_nodes attr_values];
      values_of_literal; rewrite art_content_no_id; values_of_literal.
  - unfold render_tile_url.
    destruct (reached _ now);
      cbn -[art_content text_nodes attr_values];
      values_of_literal; rewrite art_content_no_id; values_of_literal.
Qed.

Lemma render_tile_tile_root (now : Z) (images : gmap string string)
    (tile : Tile) :
  tile_root tile (render_tile host variant now images tile).
Proof.
  split; [|by rewrite render_tile_ids].
  destruct (render_tile_root host variant now images tile) as (ls & ch & ->).
  by eexists _, ls, ch.
Qed.

(** Writing a countdown keeps the element of a tile in shape, whichever
    countdown it is. *)
Lemma tile_root_update (id : string) (revealAt : option Z) (U : Z)
    (tile : Tile) (el el' : node) :
  tile_root tile el ->
  update_first (matches_attr "data-countdown-for" id)
    (countdown_update revealAt U) el = Some el' ->
  tile_root tile el'.
Proof.
  intros [(cls & ls & ch & ->) Hids] Hup. split.
  - rewrite update_first_unfold in Hup. cbn in Hup.
    destruct (update_first_among _ _ ch) as [ch'|]; [|done].
    injection Hup as <-. by exists cls, ls, ch'.
  - etrans; [|exact Hids].
    eapply update_first_attr_values; [|exact Hup].
    intros x. apply countdown_update_attr_values.
Qed.

Lemma tile_row_update (id : string) (revealAt : option Z) (U : Z)
    (ts : list Tile) (row row' : list node) :
  tile_row ts row ->
  update_first_among (matches_attr "data-countdown-for" id)
    (countdown_update revealAt U) row = Some row' ->
  tile_row ts row'.
Proof.
  intros Hrow. revert row'.
  induction Hrow as [|t el ts row Hel Hrow IH]; intros row' Hup; [done|].
  cbn in Hup. destruct (update_first _ _ el) as [el'|] eqn:Hel'.
  - injection Hup as <-. constructor; [|done]. by eapply tile_root_update.
  - destruct (update_first_among _ _ row) as [row''|]; [|done].
    injection Hup as <-. constructor; [done|]. by apply IH.
Qed.

Context (clock : nat -> Z) (TILES : list Tile).

Lemma for_each_countdown_step_shape (render : M unit) (U : Z) (ts : list Tile) :
  (forall w w', render w = Ok tt w' -> tile_row TILES (trackRow (page w'))) ->
  forall w w',
    tile_row TILES (trackRow (page w)) ->
    for_each ts (countdown_step host render U) w = Ok tt w' ->
    tile_row TILES (trackRow (page w')).
Proof.
  intros Hrender. induction ts as [|t ts IH]; intros w w' Hrow Hrun.
  - cbn in Hrun. by injection Hrun as <-.
  - cbn [for_each] in Hrun. unfold bind at 1 in Hrun.
    destruct (countdown_step host render U t w) as [[] w1|e w1|w1] eqn:Hstep;
      [|done|done].
    apply (IH w1 w'); [|done]. clear Hrun IH.
    unfold countdown_step in Hstep. unfold bind at 1, get at 1 in Hstep.
    destruct (update_first_among _ _ (trackRow (page w))) as [row|] eqn:Hup.
    + pose proof (tile_row_update _ _ _ _ _ _ Hrow Hup) as Hrow'.
      unfold bind at 1, modify at 1 in Hstep.
      destruct (parseTime host (tile_revealAt t)) as [r|];
        [destruct (r - U <=? 0)|].
      * by apply Hrender in Hstep.
      * by injection Hstep as <-.
      * by injection Hstep as <-.
    + by injection Hstep as <-.
Qed.

Lemma renderTrack_shape (fuel : nat) (w w' : world) :
  renderTrack host clock TILES variant fuel w = Ok tt w' ->
  tile_row TILES (trackRow (page w')).
Proof.
  revert w w'. induction fuel as [|fuel IH]; intros [st n] w' Hrun; [done|].
  cbn [renderTrack] in Hrun.
  unfold bind at 1, modify at 1 in Hrun. cbn [page reads] in Hrun.
  unfold bind at 1, new_Date at 1 in Hrun. cbn [page reads] in Hrun.
  unfold bind at 1, modify at 1 in Hrun. cbn [page reads] in Hrun.
  unfold bind at 1 in Hrun.
  rewrite (for_each_append_tile host variant (clock n)) in Hrun.
  unfold updateCountdowns_with in Hrun.
  unfold bind at 1, new_Date at 1 in Hrun. cbn [page reads] in Hrun.
  eapply for_each_countdown_step_shape; [exact IH| |exact Hrun].
  cbn. apply Forall2_fmap_r, Forall_Forall2_diag, Forall_forall.
  intros t _. apply render_tile_tile_root.
Qed.

(** X9. Whenever a render pass returns, the track holds exactly one
    element per tile, in the order of [TILES], each of class [tile] and
    carrying the id of its tile, with no other id below it; and a tick
    of the timer that returns keeps the track so. This holds for every
    clock and every configuration, also one with repeated ids. *)
Theorem track_shape (fuel : nat) (w w' : world) :
  (renderTrack host clock TILES variant fuel w = Ok tt w' ->
   tile_row TILES (trackRow (page w')))
  /\ (tile_row TILES (trackRow (page w)) ->
      updateCountdowns host clock TILES variant fuel w = Ok tt w' ->
      tile_row TILES (trackRow (page w'))
      /\ length (trackRow (page w')) = length TILES).
Proof.
  split; [apply renderTrack_shape|]. intros Hrow Hrun.
  assert (tile_row TILES (trackRow (page w'))) as Hrow'.
  { unfold updateCountdowns, updateCountdowns_with in Hrun.
    unfold bind at 1, new_Date at 1 in Hrun.
    eapply for_each_countdown_step_shape; [| |exact Hrun]; [|exact Hrow].
    intros w1 w2. apply renderTrack_shape. }
  split; [done|]. symmetry. by eapply Forall2_length.
Qed.
End TrackShape.

(** ** Jump to the next locked tile *)

Lemma class_tokens_tile (cls : string) :
  existsb (String.eqb "tile") (class_tokens ("tile " +:+ cls)) = true.
Proof.
  unfold class_tokens. norm_append. cbn [split_tokens].
  destruct (split_tokens cls) as [cur tokens]. by cbn.
Qed.

Lemma tile_root_matches (tile : Tile) (el : node) (id : string) :
  tile_root tile el ->
  matches_class_attr "tile" "data-id" id el = String.eqb id (tile_id tile).
Proof.
  intros [(cls & ls & ch & ->) _]. unfold matches_class_attr, matches_attr.
  cbn [get_attr String.eqb Ascii.eqb Bool.eqb]. cbn.
  by rewrite class_tokens_tile.
Qed.

(** In a track in shape, over distinct ids, the selector
    [.tile[data-id="id"]] finds the element of the tile with that id. *)
Lemma find_tile_element (TILES : list Tile) (row : list node) :
  tile_row TILES row ->
  NoDup (tile_id <$> TILES) ->
  forall (i : nat) (t : Tile),
    TILES !! i = Some t ->
    find_first_among (matches_class_attr "tile" "data-id" (tile_id t)) row
      = row !! i.
Proof.
  induction 1 as [|t0 el ts row Hel Hrow IH]; intros Hnd i t Hi; [done|].
  rewrite fmap_cons in Hnd. apply NoDup_cons in Hnd as [Hfresh Hnd].
  cbn [find_first_among].
  destruct Hel as [(cls & ls & ch & ->) Hids].
  rewrite find_first_unfold.
  rewrite (tile_root_matches t0); [|split; [by eexists _, _, _|done]].
  destruct i as [|i]; cbn in Hi.
  - injection Hi as ->. by rewrite String.eqb_refl.
  - assert (tile_id t <> tile_id t0) as Hne.
    { intros E. apply Hfresh. rewrite <- E.
      apply list_elem_of_fmap. exists t. split; [done|].
      by eapply list_elem_of_lookup_2. }
    apply String.eqb_neq in Hne. rewrite Hne.
    assert (find_first_among (matches_class_attr "tile" "data-id" (tile_id t)) ch
            = None) as ->.
    { rewrite attr_values_unfold in Hids. cbn in Hids.
      assert (tile_id t ∉ attr_values_among "data-id" ch) as Hnot.
      { intros Hin. apply String.eqb_neq in Hne. apply Hne.
        assert (tile_id t ∈ tile_id t0 :: attr_values_among "data-id" ch) as Hin'
          by (by apply list_elem_of_further).
        apply Hids in Hin'. by apply list_elem_of_singleton in Hin'. }
      clear -Hnot. induction ch as [|c ch IHch]; [done|].
      cbn in *. rewrite find_first_none, IHch; [done| |];
        intros Hin; apply Hnot, elem_of_app; auto. }
    by apply IH.
Qed.

Section JumpNext.
Context (host : Host) (clock : nat -> Z).

(** X10. On a track in shape, over distinct non-empty ids, a click on
    the jump button changes nothing and reads the clock once; the
    element it scrolls to is that of the first tile, in list order, that
    is locked at that instant, and, when every tile is revealed, that of
    the last tile (none if there is no tile). *)
Theorem jumpNextBtn_click_target (TILES : list Tile) (st : state) (n : nat) :
  tile_row TILES (trackRow st) ->
  NoDup (tile_id <$> TILES) ->
  Forall (fun t => tile_id t <> EmptyString) TILES ->
  exists target,
    jumpNextBtn_click host clock TILES {| page := st; reads := n |}
      = Ok target {| page := st; reads := S n |}
    /\ (((forall t, t ∈ TILES -> isRevealed host t (clock n) = true)
         /\ target = last (trackRow st))
        \/ (exists (i : nat) (t : Tile) (el : node),
              TILES !! i = Some t
              /\ isRevealed host t (clock n) = false
              /\ (forall (j : nat) (t' : Tile),
                    (j < i)%nat -> TILES !! j = Some t' ->
                    isRevealed host t' (clock n) = true)
              /\ trackRow st !! i = Some el
              /\ tile_root t el
              /\ target = Some el)).
Proof.
  intros Hrow Hnd Hids.
  unfold jumpNextBtn_click, bind, new_Date, get, ret. cbn [page reads].
  eexists. split; [reflexivity|].
  assert (forall (i : nat) (t : Tile),
            TILES !! i = Some t ->
            (if truthy (tile_id <$> Some t) then
               find_first_among
                 (matches_class_attr "tile" "data-id"
                    (default EmptyString (tile_id <$> Some t)))
                 (trackRow st)
             else None) = trackRow st !! i) as Hfind.
  { intros i t Hi. cbn [fmap option_fmap option_map default].
    assert (truthy (Some (tile_id t)) = true) as ->.
    { assert (tile_id t <> EmptyString) as Hne.
      { eapply (proj1 (Forall_forall _ _) Hids).
        by eapply list_elem_of_lookup_2. }
      by destruct (tile_id t). }
    by apply (find_tile_element TILES). }
  unfold nextUnrevealedIndex, findIndex.
  destruct (findIndex_from_spec (fun t => negb (isRevealed host t (clock n)))
              TILES 0) as [[E Hall]|(i & t & E & Hi & Ht & Hlt)].
  - left. rewrite E, Z.eqb_refl. split.
    { intros t Ht. apply Hall in Ht. by destruct (isRevealed host t (clock n)). }
    pose proof (Forall2_length _ _ _ Hrow) as Hlen.
    rewrite last_lookup, <- Hlen. unfold at_index.
    destruct (Z.of_nat (length TILES) - 1 <? 0) eqn:Hempty.
    + cbn. symmetry. apply lookup_ge_None. lia.
    + replace (Z.to_nat (Z.of_nat (length TILES) - 1))
        with (pred (length TILES)) by lia.
      destruct (TILES !! pred (length TILES)) as [t|] eqn:Hlast.
      * by apply Hfind.
      * apply lookup_ge_None in Hlast. lia.
  - right. rewrite E.
    replace (0 + Z.of_nat i =? -1) with false by lia.
    unfold at_index. replace (0 + Z.of_nat i <? 0) with false by lia.
    replace (Z.to_nat (0 + Z.of_nat i)) with i by lia.
    rewrite Hi, (Hfind i t Hi).
    destruct (Forall2_lookup_l _ _ _ _ _ Hrow Hi) as (el & Hel & Hroot).
    exists i, t, el. rewrite Hel.
    split; [done|]. split; [by destruct (isRevealed host t (clock n))|].
    split; [|done].
    intros j t' Hj Hj'. specialize (Hlt j t' Hj Hj').
    by destruct (isRevealed host t' (clock n)).
Qed.
End JumpNext.

(** ** Images shown by the URL-only script *)

Section Cover.
Context (host : Host).

Lemma render_tile_url_src (now : Z) (tile : Tile) :
  attr_values "src" (render_tile_url host now tile) =
    if isRevealed host tile now && truthy (tile_imageUrl tile)
    then [default EmptyString (tile_imageUrl tile)] else [].
Proof.
  unfold render_tile_url.
  change (reached (parseTime host (tile_revealAt tile)) now)
    with (isRevealed host tile now).
  destruct (isRevealed host tile now);
    cbn -[art_content text_nodes attr_values countdownString];
    values_of_literal; rewrite art_content_src; values_of_literal.
  by destruct (tile_imageUrl tile) as [[|c s]|].
Qed.

(** X11. In the URL-only script the element of a tile, rendered at [T]
    and with its countdown written at any later tick, carries an image
    source only if the tile was revealed at [T] and has an image URL,
    and then that URL alone; the same holds for the preview of the
    modal at the instant it is opened. A locked tile never has its
    image URL in the document. *)
Theorem cover_only_after_reveal (T U : Z) (images : gmap string string)
    (tile : Tile) (clock : nat -> Z) (st : state) (n : nat) :
  attr_values "src" (ticked_tile host UrlOnly T U images tile)
    = (if isRevealed host tile T && truthy (tile_imageUrl tile)
       then [default EmptyString (tile_imageUrl tile)] else [])
  /\ exists st',
       openTileModal host clock UrlOnly tile {| page := st; reads := n |}
         = Ok tt {| page := st'; reads := S n |}
       /\ attr_values_among "src" (modalPreview (modal st'))
          = (if isRevealed host tile (clock n) && truthy (tile_imageUrl tile)
             then [default EmptyString (tile_imageUrl tile)] else []).
Proof.
  split.
  - unfold ticked_tile.
    pose proof (render_tile_targets host UrlOnly T images tile) as Ht.
    pose proof (render_tile_url_src T tile) as Hsrc.
    change (render_tile host UrlOnly T images tile)
      with (render_tile_url host T tile) in *.
    change (reached (parseTime host (tile_revealAt tile)) T)
      with (isRevealed host tile T) in Ht.
    destruct (update_first _ _ _) as [el|] eqn:Hup; [|done].
    destruct (isRevealed host tile T).
    + rewrite update_first_none in Hup; [done|].
      rewrite Ht. apply not_elem_of_nil.
    + cbn [andb] in *.
      pose proof (update_first_attr_values "src" _ _ _ _
                    (countdown_update_attr_values "src" _ U) Hup) as Hsub.
      rewrite Hsrc in Hsub. destruct (attr_values "src" el) as [|v vs]; [done|].
      exfalso. eapply not_elem_of_nil, Hsub, list_elem_of_here.
  - unfold openTileModal, bind, modify, new_Date, get. cbn [page reads].
    eexists. split; [reflexivity|].
    cbn [modal set_modal modalPreview attr_values_among].
    rewrite art_content_src, app_nil_r.
    change (reached (parseTime host (tile_revealAt tile)) (clock n))
      with (isRevealed host tile (clock n)).
    destruct (isRevealed host tile (clock n)); [|done].
    by destruct (tile_imageUrl tile) as [[|c s]|].
Qed.
End Cover.

(** ** Ticks of the timer *)

Lemma matches_attr_countdown_update (k v : string) (revealAt : option Z)
    (U : Z) (x : node) :
  matches_attr k v (countdown_update revealAt U x) = matches_attr k v x.
Proof. destruct x as [s|tag attrs ls [|c ch]], revealAt; reflexivity. Qed.

Lemma countdown_update_overwrite (revealAt : option Z) (U U' : Z) (x : node) :
  countdown_update revealAt U (countdown_update revealAt U' x)
    = countdown_update revealAt U x.
Proof. destruct x as [s|tag attrs ls [|c ch]], revealAt; reflexivity. Qed.

Lemma update_first_ext (p : node -> bool) (f f' : node -> node) (n : node) :
  (forall x, f x = f' x) -> update_first p f n = update_first p f' n.
Proof.
  intros Hf. induction n as [s|tag attrs ls ch IH] using node_nested_ind.
  - cbn. by rewrite Hf.
  - rewrite !update_first_unfold, Hf.
    assert (update_first_among p f ch = update_first_among p f' ch) as ->; [|done].
    induction IH as [|c ch Hc _ IHch]; [done|]. cbn. by rewrite Hc, IHch.
Qed.

(** Whether the selector finds a node does not depend on the update. *)
Lemma update_first_none_any (p : node -> bool) (f g : node -> node) (n : node) :
  update_first p f n = None -> update_first p g n = None.
Proof.
  induction n as [s|tag attrs ls ch IH] using node_nested_ind.
  - cbn. by destruct (p (Text s)).
  - rewrite !update_first_unfold. destruct (p _); [done|].
    destruct (update_first_among p f ch) eqn:E; [done|]. intros _.
    assert (update_first_among p g ch = None) as ->; [|done].
    revert E. induction IH as [|x ch Hx _ IHch]; [done|].
    cbn. destruct (update_first p f x) eqn:Ex; [done|].
    destruct (update_first_among p f ch) eqn:E2; [done|]. intros _.
    by rewrite Hx, IHch.
Qed.

(** A second update through the same attribute selector lands on the
    node the first one changed, provided the first left the attributes
    alone. *)
Lemma update_first_twice (k v : string) (f g : node -> node) (n n' : node) :
  (forall x, matches_attr k v (f x) = matches_attr k v x) ->
  update_first (matches_attr k v) f n = Some n' ->
  update_first (matches_attr k v) g n'
    = update_first (matches_attr k v) (fun x => g (f x)) n.
Proof.
  intros Hf. revert n'.
  induction n as [s|tag attrs ls ch IH] using node_nested_ind; intros n'; [done|].
  rewrite !update_first_unfold.
  destruct (matches_attr k v (Element tag attrs ls ch)) eqn:Hp.
  - intros [= <-]. specialize (Hf (Element tag attrs ls ch)). rewrite Hp in Hf.
    destruct (f (Element tag attrs ls ch)) as [s|tag' attrs' ls' ch']; [done|].
    by rewrite update_first_unfold, Hf.
  - destruct (update_first_among (matches_attr k v) f ch) as [ch1|] eqn:E; [|done].
    intros [= <-]. rewrite update_first_unfold.
    change (matches_attr k v (Element tag attrs ls ch1))
      with (matches_attr k v (Element tag attrs ls ch)). rewrite Hp.
    assert (update_first_among (matches_attr k v) g ch1
            = update_first_among (matches_attr k v) (fun x => g (f x)) ch) as ->;
      [|done].
    clear Hp. revert ch1 E.
    induction IH as [|c ch Hc _ IHch]; intros ch1 E; [done|].
    cbn in E. destruct (update_first (matches_attr k v) f c) as [c'|] eqn:Ec.
    + injection E as <-. cbn. rewrite (Hc _ eq_refl).
      destruct (update_first _ (fun x => g (f x)) c) eqn:Eg; [done|].
      apply (update_first_none_any _ _ f) in Eg. congruence.
    + destruct (update_first_among (matches_attr k v) f ch) as [ch2|] eqn:Ech;
        [|done].
      injection E as <-. cbn.
      rewrite (update_first_none_any _ f g c Ec).
      rewrite (update_first_none_any _ f (fun x => g (f x)) c Ec).
      by rewrite (IHch _ eq_refl).
Qed.

Section Tick.
Context (host : Host) (variant : Variant) (T : Z).
Context (images : gmap string string).

Let K (V : Z) : Tile -> node := ticked_tile host variant T V images.

Lemma ticked_tile_revealed (V : Z) (t : Tile) :
  reached (parseTime host (tile_revealAt t)) T = true ->
  K V t = render_tile host variant T images t.
Proof.
  intros Hr. unfold K, ticked_tile. rewrite update_first_none; [done|].
  rewrite render_tile_targets, Hr. apply not_elem_of_nil.
Qed.

(** Writing the countdown of a tile again replaces what the earlier
    tick wrote. *)
Lemma ticked_tile_update (U0 U : Z) (t : Tile) :
  update_first (matches_attr "data-countdown-for" (tile_id t))
    (countdown_update (parseTime host (tile_revealAt t)) U) (K U0 t)
  = if reached (parseTime host (tile_revealAt t)) T then None
    else Some (K U t).
Proof.
  pose proof (render_tile_targets host variant T images t) as Ht.
  destruct (reached (parseTime host (tile_revealAt t)) T) eqn:Hr.
  - rewrite ticked_tile_revealed by done. apply update_first_none.
    rewrite Ht. apply not_elem_of_nil.
  - unfold K, ticked_tile.
    destruct (update_first_some (tile_id t)
                (countdown_update (parseTime host (tile_revealAt t)) U0)
                (render_tile host variant T images t)) as [e0 He0];
      [rewrite Ht; apply list_elem_of_here|].
    destruct (update_first_some (tile_id t)
                (countdown_update (parseTime host (tile_revealAt t)) U)
                (render_tile host variant T images t)) as [e He];
      [rewrite Ht; apply list_elem_of_here|].
    rewrite He0, He.
    rewrite (update_first_twice _ _ _ _ _ _
               (fun x => matches_attr_countdown_update _ _ _ U0 x) He0).
    rewrite (update_first_ext _ _
               (countdown_update (parseTime host (tile_revealAt t)) U));
      [done|].
    intros x. apply countdown_update_overwrite.
Qed.

Lemma ticked_tile_targets_sub (V : Z) (t : Tile) :
  countdown_targets (K V t) ⊆ [tile_id t].
Proof.
  unfold K, ticked_tile.
  destruct (update_first _ _ _) as [el|] eqn:E;
    [|apply render_tile_targets_sub].
  etrans; [|apply (render_tile_targets_sub host variant T images t)].
  eapply update_first_targets; [|exact E].
  apply countdown_update_targets.
Qed.

(** One step of the countdown loop at the instant [U], for a tile whose
    element was rendered at [T] and last ticked at [U0]. *)
Lemma countdown_step_ticked (render : M unit) (U0 U : Z) (t : Tile)
    (rpre rpost : list node) (st : state) (n : nat) :
  tile_id t ∉ countdown_targets_among rpre ->
  tile_id t ∉ countdown_targets_among rpost ->
  countdown_step host render U t
    {| page := set_trackRow (rpre ++ K U0 t :: rpost) st; reads := n |}
  = (if reached (parseTime host (tile_revealAt t)) T then ret tt
     else match parseTime host (tile_revealAt t) with
          | Some r => if r - U <=? 0 then render else ret tt
          | None => ret tt
          end)
      {| page := set_trackRow (rpre ++ K U t :: rpost) st; reads := n |}.
Proof.
  intros Hpre Hpost. unfold countdown_step.
  unfold bind at 1. unfold get at 1. cbn [page reads trackRow set_trackRow].
  rewrite update_first_among_app_none by done.
  cbn [update_first_among]. rewrite ticked_tile_update.
  destruct (reached (parseTime host (tile_revealAt t)) T) eqn:Hreached.
  - rewrite update_first_among_none by done.
    by rewrite !ticked_tile_revealed.
  - unfold bind at 1. unfold modify at 1. cbn [page reads]. done.
Qed.

(** The countdown loop at the instant [U], on a track rendered at [T]
    and last ticked at [U0], when none of the tiles it visits is due:
    it writes the countdowns and starts no render. *)
Lemma for_each_countdown_step_tick (render : M unit) (U0 U : Z)
    (post : list Tile) :
  forall (pre : list Tile) (st : state) (n : nat),
    NoDup (tile_id <$> (pre ++ post)) ->
    none_due host post T U ->
    for_each post (countdown_step host render U)
      {| page := set_trackRow (map (K U) pre ++ map (K U0) post) st;
         reads := n |} =
      Ok tt {| page := set_trackRow (map (K U) (pre ++ post)) st;
               reads := n |}.
Proof.
  induction post as [|t post IH]; intros pre st n Hnd Hdue.
  - cbn. by rewrite !app_nil_r.
  - assert ((tile_id t ∉ (tile_id <$> pre)) /\ (tile_id t ∉ (tile_id <$> post)))
      as [Hpre Hpost].
    { rewrite fmap_app in Hnd. apply NoDup_app in Hnd as (_ & Hdisj & Hnd).
      rewrite fmap_cons in Hnd, Hdisj. apply NoDup_cons in Hnd as [? _].
      split; [|done]. intros Hin. apply (Hdisj _ Hin), list_elem_of_here. }
    assert (NoDup (tile_id <$> ((pre ++ [t]) ++ post))) as Hnd'.
    { by rewrite <- app_assoc. }
    assert (none_due host post T U) as Hdue'.
    { intros t' r Hin. apply Hdue. by apply list_elem_of_further. }
    specialize (IH (pre ++ [t]) st n Hnd' Hdue').
    rewrite <- app_assoc in IH. cbn [app] in IH.
    cbn [for_each map]. unfold bind at 1.
    rewrite countdown_step_ticked
      by (apply countdown_targets_among_map;
          [apply ticked_tile_targets_sub|done]).
    assert ((if reached (parseTime host (tile_revealAt t)) T then ret tt
             else match parseTime host (tile_revealAt t) with
                  | Some r => if r - U <=? 0 then render else ret tt
                  | None => ret tt
                  end) = ret tt) as ->.
    { destruct (reached (parseTime host (tile_revealAt t)) T) eqn:Hreached;
        [done|].
      destruct (parseTime host (tile_revealAt t)) as [r|] eqn:Hparse; [|done].
      cbn in Hreached.
      assert (U < r) as HU.
      { apply (Hdue t r); [apply list_elem_of_here|done|lia]. }
      destruct (r - U <=? 0) eqn:E; [lia|done]. }
    unfold ret at 1. rewrite <- IH. do 3 f_equal.
    rewrite map_app. cbn [map]. by rewrite <- app_assoc.
Qed.
End Tick.

(** X12. A tick of the timer at which no tile has become due since the
    render, on a track over distinct ids: it reads the clock once, writes
    the countdown of every locked tile and nothing else (the hint keeps
    the time of the render), and starts no render, so it returns
    whatever the fuel. *)
Theorem updateCountdowns_between_reveals (host : Host) (variant : Variant)
    (clock : nat -> Z) (TILES : list Tile) (T U0 : Z) (fuel : nat)
    (st : state) (n : nat) :
  NoDup (tile_id <$> TILES) ->
  trackRow st = map (ticked_tile host variant T U0 (imagesById st)) TILES ->
  none_due host TILES T (clock n) ->
  updateCountdowns host clock TILES variant fuel {| page := st; reads := n |}
    = Ok tt
        {| page := set_trackRow
                     (map (ticked_tile host variant T (clock n) (imagesById st)) TILES)
                     st;
           reads := S n |}.
Proof.
  intros Hnd Hrow Hdue.
  unfold updateCountdowns, updateCountdowns_with.
  unfold bind at 1. unfold new_Date at 1. cbn [page reads].
  pose proof (for_each_countdown_step_tick host variant T (imagesById st)
                (renderTrack host clock TILES variant fuel) U0 (clock n)
                TILES [] st (S n) Hnd Hdue) as H.
  cbn [map app] in H. rewrite <- Hrow in H.
  etrans; [|exact H]. f_equal. f_equal. by destruct st.
Qed.

(** A tile that is revealed at [T] exactly if it is at [U] has, once its
    countdown is written at [U], the element a render at [U] gives it. *)
Lemma ticked_tile_as_rendered (host : Host) (variant : Variant) (T U : Z)
    (images : gmap string string) (tile : Tile) :
  reached (parseTime host (tile_revealAt tile)) T
    = reached (parseTime host (tile_revealAt tile)) U ->
  ticked_tile host variant T U images tile
    = rendered_tile host variant U images tile.
Proof.
  intros H. destruct variant.
  - unfold ticked_tile, rendered_tile.
    assert (render_tile host Upload T images tile
            = render_tile host Upload U images tile) as ->; [|done].
    unfold render_tile, render_tile_upload. by rewrite H.
  - unfold ticked_tile, rendered_tile, render_tile, render_tile_url.
    rewrite H.
    destruct (reached (parseTime host (tile_revealAt tile)) U); [done|].
    destruct (tile_icon tile) as [[|c s]|];
      cbn -[countdownString String.append];
      rewrite String.eqb_refl;
      by destruct (parseTime host (tile_revealAt tile)).
Qed.

Lemma none_due_reached (host : Host) (TILES : list Tile) (T U : Z) (t : Tile) :
  T <= U -> none_due host TILES T U -> t ∈ TILES ->
  reached (parseTime host (tile_revealAt t)) T
    = reached (parseTime host (tile_revealAt t)) U.
Proof.
  intros HTU Hdue Hin. unfold reached.
  destruct (parseTime host (tile_revealAt t)) as [r|] eqn:Hparse; [|done].
  specialize (Hdue t r Hin Hparse). lia.
Qed.

(** A render pass whose two clock reads give the same instant. *)
Lemma renderTrack_still (host : Host) (variant : Variant) (TILES : list Tile)
    (clock : nat -> Z) (now : Z) (fuel : nat) (st : state) (n : nat) :
  NoDup (tile_id <$> TILES) ->
  clock n = now -> clock (S n) = now ->
  renderTrack host clock TILES variant (S fuel) {| page := st; reads := n |} =
    Ok tt {| page := after_render host variant TILES now st;
             reads := S (S n) |}.
Proof.
  intros Hnd Hn HSn. cbn [renderTrack].
  unfold bind at 1. unfold modify at 1. cbn [page reads].
  unfold bind at 1. unfold new_Date at 1. cbn [page reads]. rewrite Hn.
  unfold bind at 1. unfold modify at 1. cbn [page reads].
  unfold bind at 1. rewrite for_each_append_tile.
  unfold updateCountdowns_with. unfold bind at 1. unfold new_Date at 1.
  cbn [page reads]. rewrite HSn.
  pose proof (for_each_countdown_step host variant now
                (renderTrack host clock TILES variant fuel)
                TILES [] (set_trackHint (hint_text host variant now) (set_trackRow [] st))
                (S (S n)) Hnd) as H.
  cbn zeta in H. cbn [page map] in H.
  etrans; [|etrans; [exact H|]]; reflexivity.
Qed.

Section TickRender.
Context (host : Host) (variant : Variant) (clock : nat -> Z).
Context (TILES : list Tile) (T U : Z) (fuel : nat).
Hypothesis distinct_ids : NoDup (tile_id <$> TILES).

Lemma for_each_countdown_step_due (st : state) (n : nat) :
  clock n = U -> clock (S n) = U ->
  let K V := ticked_tile host variant T V (imagesById st) in
  forall post pre : list Tile,
    TILES = pre ++ post ->
    none_due host pre T U ->
    (for_each post
       (countdown_step host (renderTrack host clock TILES variant (S fuel)) U)
       {| page := set_trackRow (map (K U) pre ++ map (K T) post) st;
          reads := n |}
     = Ok tt {| page := set_trackRow (map (K U) TILES) st; reads := n |}
     /\ none_due host TILES T U)
    \/ (for_each post
          (countdown_step host (renderTrack host clock TILES variant (S fuel)) U)
          {| page := set_trackRow (map (K U) pre ++ map (K T) post) st;
             reads := n |}
        = Ok tt {| page := after_render host variant TILES U st;
                   reads := S (S n) |}
        /\ exists t r,
             t ∈ TILES /\ parseTime host (tile_revealAt t) = Some r
             /\ T < r /\ r <= U).
Proof.
  intros Hn HSn K.
  induction post as [|t post IH]; intros pre HT Hdue.
  - left. rewrite app_nil_r in HT. subst pre. by rewrite app_nil_r.
  - assert ((tile_id t ∉ (tile_id <$> pre)) /\ (tile_id t ∉ (tile_id <$> post)))
      as [Hpre Hpost].
    { pose proof distinct_ids as Hnd. rewrite HT, fmap_app in Hnd.
      apply NoDup_app in Hnd as (_ & Hdisj & Hnd).
      rewrite fmap_cons in Hnd, Hdisj. apply NoDup_cons in Hnd as [? _].
      split; [|done]. intros Hin. apply (Hdisj _ Hin), list_elem_of_here. }
    assert (TILES = (pre ++ [t]) ++ post) as HT' by (by rewrite <- app_assoc).
    assert (t ∈ TILES) as Hin.
    { rewrite HT. apply elem_of_app. right. apply list_elem_of_here. }
    assert ((forall r, parseTime host (tile_revealAt t) = Some r ->
                       T < r -> U < r) ->
            none_due host (pre ++ [t]) T U) as Hdue'.
    { intros Ht t' r [Hin'|Hin']%elem_of_app; [by apply Hdue|].
      apply list_elem_of_singleton in Hin' as ->. apply Ht. }
    specialize (IH (pre ++ [t]) HT').
    rewrite map_app, <- app_assoc in IH. cbn [map app] in IH.
    cbn [for_each map]. unfold bind at 1 2.
    unfold K. rewrite !countdown_step_ticked
      by (apply countdown_targets_among_map;
          [apply ticked_tile_targets_sub|done]).
    fold (K U) (K T).
    destruct (reached (parseTime host (tile_revealAt t)) T) eqn:Hreached.
    { unfold ret at 1 2. apply IH, Hdue'. intros r Hparse.
      rewrite Hparse in Hreached. cbn in Hreached. lia. }
    destruct (parseTime host (tile_revealAt t)) as [r|] eqn:Hparse;
      [|unfold ret at 1 2; by apply IH, Hdue'].
    destruct (r - U <=? 0) eqn:E;
      [|unfold ret at 1 2; apply IH, Hdue'; intros ? [= <-]; lia].
    right. split.
    + rewrite (renderTrack_still host variant TILES clock U) by done.
      pose proof (for_each_countdown_step_tick host variant U (imagesById st)
                    (renderTrack host clock TILES variant (S fuel)) U U
                    post (pre ++ [t])
                    (after_render host variant TILES U st) (S (S n))) as H.
      rewrite <- HT' in H. rewrite <- map_app, <- HT' in H.
      assert (none_due host post U U) as Hnone by (by intros ? ? _ _ ?).
      specialize (H distinct_ids Hnone).
      etrans; [|etrans; [exact H|]]; reflexivity.
    + exists t, r. cbn in Hreached. repeat split; [done|done|lia|lia].
Qed.
End TickRender.

(** X13. A tick of the timer during which the clock stands at [U], on a
    track that shows a render at [T], not later than [U], over distinct
    ids: it returns, and the track it leaves is the one a render at [U]
    gives. If no tile became due in between, only the countdowns were
    written, after one clock read; otherwise the whole track was rendered
    again, once, hint included. *)
Theorem updateCountdowns_as_fresh_render (host : Host) (variant : Variant)
    (clock : nat -> Z) (TILES : list Tile) (T U : Z) (fuel : nat)
    (st : state) (n : nat) :
  NoDup (tile_id <$> TILES) ->
  T <= U ->
  clock n = U -> clock (S n) = U -> clock (S (S n)) = U ->
  trackRow st = map (rendered_tile host variant T (imagesById st)) TILES ->
  exists st' n',
    updateCountdowns host clock TILES variant (S fuel) {| page := st; reads := n |}
      = Ok tt {| page := st'; reads := n' |}
    /\ trackRow st' = map (rendered_tile host variant U (imagesById st)) TILES
    /\ ((none_due host TILES T U
         /\ st' = set_trackRow (trackRow st') st /\ n' = S n)
        \/ ((exists t r,
               t ∈ TILES /\ parseTime host (tile_revealAt t) = Some r
               /\ T < r /\ r <= U)
            /\ st' = after_render host variant TILES U st
            /\ n' = S (S (S n)))).
Proof.
  intros Hnd HTU Hn HSn HSSn Hrow.
  unfold updateCountdowns, updateCountdowns_with.
  unfold bind at 1. unfold new_Date at 1. cbn [page reads]. rewrite Hn.
  assert (none_due host [] T U) as Hnil by (by intros ? ? ?%elem_of_nil).
  destruct (for_each_countdown_step_due host variant clock TILES T U fuel Hnd
              st (S n) HSn HSSn TILES [] eq_refl Hnil) as [[H Hdue]|[H Hdue]];
    cbn [map app] in H.
  - assert (map (ticked_tile host variant T U (imagesById st)) TILES
            = map (rendered_tile host variant U (imagesById st)) TILES) as Hfresh.
    { apply map_ext_in. intros t Ht. apply ticked_tile_as_rendered.
      apply (none_due_reached host TILES); [done|done|].
      by apply list_elem_of_In. }
    eexists _, _. split; [|split; [|left]].
    + etrans; [|exact H]. f_equal. f_equal. destruct st; cbn in *. by subst.
    + cbn. exact Hfresh.
    + split; [done|]. by split.
  - eexists _, _. split; [|split; [|right]].
    + etrans; [|exact H]. f_equal. f_equal. destruct st; cbn in *. by subst.
    + done.
    + by split.
Qed.

(** ** The page over time *)

Section PageLife.
Context (host : Host) (clock : nat -> Z) (TILES : list Tile) (variant : Variant).
Hypothesis clock_monotone : monotone clock.
Hypothesis distinct_ids : NoDup (tile_id <$> TILES).


End PageLife.



(** ** Repeated ids *)

Lemma update_first_among_some (id : string) (f : node -> node) (l : list node) :
  id ∈ countdown_targets_among l ->
  is_Some (update_first_among (matches_attr "data-countdown-for" id) f l).
Proof.
  induction l as [|c l IH]; [by intros ?%elem_of_nil|].
  cbn. intros [Hin|Hin]%elem_of_app.
  - destruct (update_first_some id f c Hin) as [c' ->]. by eexists.
  - destruct (update_first _ f c); [by eexists|].
    destruct (IH Hin) as [l' ->]. by eexists.
Qed.

(** X15. Distinct ids are needed. If the first tile is revealed from some
    clock read on while a later tile with the same id is not, then a
    render started at that read never returns: the countdown selector of
    the first tile finds the countdown of the other, the first tile being
    due a render is started, and so on at every depth. *)
Theorem renderTrack_shared_id_diverges (host : Host) (variant : Variant)
    (clock : nat -> Z) (t1 t2 : Tile) (rest : list Tile) (fuel : nat)
    (st : state) (n : nat) :
  t2 ∈ rest ->
  tile_id t2 = tile_id t1 ->
  (forall k, (n <= k)%nat -> isRevealed host t1 (clock k) = true) ->
  (forall k, (n <= k)%nat -> isRevealed host t2 (clock k) = false) ->
  exists w,
    renderTrack host clock (t1 :: rest) variant fuel {| page := st; reads := n |}
      = OutOfFuel w.
Proof.
  intros Hin Hid Hrev Hlocked. revert st n Hrev Hlocked.
  induction fuel as [|fuel IH]; intros st n Hrev Hlocked; [by eexists|].
  cbn [renderTrack].
  unfold bind at 1. unfold modify at 1. cbn [page reads].
  unfold bind at 1. unfold new_Date at 1. cbn [page reads].
  unfold bind at 1. unfold modify at 1. cbn [page reads].
  unfold bind at 1. rewrite (for_each_append_tile host variant (clock n)).
  unfold updateCountdowns_with. unfold bind at 1. unfold new_Date at 1.
  cbn [page reads for_each]. unfold bind at 1. unfold countdown_step at 1.
  unfold bind at 1. unfold get at 1.
  cbn [page reads trackRow imagesById set_trackRow set_trackHint app map
       update_first_among].
  pose proof (Hrev n (le_n n)) as Hrev0. pose proof (Hrev (S n) (le_S _ _ (le_n n))) as Hrev1.
  pose proof (Hlocked n (le_n n)) as Hlocked0.
  unfold isRevealed in Hrev0, Hrev1.
  destruct (parseTime host (tile_revealAt t1)) as [r1|] eqn:Hparse1; [|done].
  rewrite update_first_none.
  2:{ rewrite render_tile_targets. unfold reached. rewrite Hparse1, Hrev0.
      apply not_elem_of_nil. }
  destruct (update_first_among_some (tile_id t1)
              (countdown_update (Some r1) (clock (S n)))
              (map (render_tile host variant (clock n) (imagesById st)) rest))
    as [row ->].
  { clear -Hin Hid Hlocked0. induction rest as [|t rest IHrest];
      [by apply elem_of_nil in Hin|].
    cbn. apply elem_of_app. apply elem_of_cons in Hin as [<-|Hin];
      [left|right; by apply IHrest].
    rewrite render_tile_targets.
    change (reached (parseTime host (tile_revealAt t2)) (clock n))
      with (isRevealed host t2 (clock n)).
    rewrite Hlocked0, Hid. apply list_elem_of_here. }
  unfold bind at 1. unfold modify at 1. cbn [page reads].
  replace (r1 - clock (S n) <=? 0) with true by lia.
  set (st1 := set_trackRow _ _).
  destruct (IH st1 (S (S n))) as [w Hw].
  - intros k Hk. apply Hrev. lia.
  - intros k Hk. apply Hlocked. lia.
  - exists w. by rewrite Hw.
Qed.

(** ** Concrete runs *)

Lemma none_dueb_none_due (host : Host) (TILES : list Tile) (T U : Z) :
  none_dueb host TILES T U = true -> none_due host TILES T U.
Proof.
  intros H t r Hin Hparse HT. unfold none_dueb in H.
  rewrite forallb_forall in H. specialize (H t).
  rewrite Hparse in H. apply list_elem_of_In in Hin. specialize (H Hin). lia.
Qed.

Lemma tile_row_after_render (host : Host) (variant : Variant) (TILES : list Tile)
    (now : Z) (st : state) :
  tile_row TILES (trackRow (after_render host variant TILES now st)).
Proof.
  cbn [after_render trackRow].
  apply Forall2_fmap_r, Forall_Forall2_diag, Forall_forall.
  intros t _. unfold compose, rendered_tile.
  pose proof (render_tile_tile_root host variant now (imagesById st) t) as Hroot.
  destruct (update_first (matches_attr "data-countdown-for" (tile_id t))
              (countdown_update (parseTime host (tile_revealAt t)) now)
              (render_tile host variant now (imagesById st) t))
    as [el|] eqn:E; [|done].
  by eapply tile_root_update.
Qed.

Lemma nonempty_ids_app : Forall (fun t => tile_id t <> EmptyString) TILES_app.
Proof. repeat constructor; discriminate. Qed.


Lemma remaining_steps_down_witness :
  1000 <= 2000
  /\ partsToSeconds (remaining 5000 2000) <= partsToSeconds (remaining 5000 1000)
  /\ partsToSeconds (remaining 5000 (1000 + 1000))
     = Z.max 0 (partsToSeconds (remaining 5000 1000) - 1).
Proof.
  assert (1000 <= 2000) as H by (vm_compute; discriminate).
  exact (conj H (remaining_steps_down 5000 1000 2000 H)).
Defined.

(** A page with one stored image, reset at the start of 2026. *)
Lemma resetBtn_click_clears_witness :
  exists st' n',
    resetBtn_click ref_host (fun k => new_year_2026 + Z.of_nat k) TILES_app 7
      {| page := set_imagesById {[ "tile-01" := "data:image/png;base64,AAAA" ]}
                   initial_state;
         reads := 0 |}
      = Ok tt {| page := st'; reads := n' |}
    /\ activeTileId st' = None
    /\ modalBackdrop_open (modal st') = false
    /\ length (trackRow st') = length TILES_app.
Proof.
  destruct (resetBtn_click_clears ref_host (fun k => new_year_2026 + Z.of_nat k)
              TILES_app 7
              (set_imagesById {[ "tile-01" := "data:image/png;base64,AAAA" ]}
                 initial_state) 0) as [_ H].
  destruct (H ∅ eq_refl) as (_ & _ & Hrun).
  exact (Hrun (ticking_monotone new_year_2026) distinct_ids_app ltac:(cbn; lia)).
Defined.

Lemma resetBtn_click_denied_witness :
  resetBtn_click ref_host (frozen new_year_2026) TILES_app 7
    {| page := set_localStorage Denied initial_state; reads := 0 |}
    = Err SecurityError
        {| page := set_imagesById ∅ (set_localStorage Denied initial_state);
           reads := 0 |}.
Proof.
  exact (resetBtn_click_denied ref_host (frozen new_year_2026) TILES_app 7
           (set_localStorage Denied initial_state) 0 eq_refl).
Defined.

Lemma filePicker_change_resume_denied_witness :
  filePicker_change_resume ref_host (frozen new_year_2026) TILES_app Upload 7
    "data:image/png;base64,AAAA"
    {| page := set_activeTileId (Some "tile-01")
                 (set_localStorage Denied initial_state);
       reads := 0 |}
    = Err SecurityError
        {| page := set_imagesById
                     (<["tile-01" := "data:image/png;base64,AAAA"]> ∅)
                     (set_activeTileId (Some "tile-01")
                        (set_localStorage Denied initial_state));
           reads := 0 |}.
Proof.
  exact (filePicker_change_resume_denied ref_host (frozen new_year_2026) TILES_app
           Upload 7 "data:image/png;base64,AAAA"
           (set_activeTileId (Some "tile-01")
              (set_localStorage Denied initial_state)) 0 eq_refl).
Defined.

(** An upload for the sixth tile, with its modal open, at the start of
    2026. *)
Lemma filePicker_change_resume_shows_image_witness :
  exists st' n',
    filePicker_change_resume ref_host (fun k => new_year_2026 + Z.of_nat k)
      TILES_app Upload 7 "data:image/png;base64,AAAA"
      {| page := set_activeTileId (Some "tile-06") initial_state; reads := 0 |}
      = Ok tt {| page := st'; reads := n' |}
    /\ imagesById st' !! "tile-06" = Some "data:image/png;base64,AAAA"
    /\ modalPreview (modal st')
       = [Element "img"
            [("src", "data:image/png;base64,AAAA"); ("alt", "Emote image")] [] []].
Proof.
  destruct (filePicker_change_resume_shows_image ref_host
              (fun k => new_year_2026 + Z.of_nat k) TILES_app 7
              "data:image/png;base64,AAAA"
              (set_activeTileId (Some "tile-06") initial_state) 0 ∅ tile_06
              (ticking_monotone new_year_2026) distinct_ids_app
              ltac:(cbn; lia) eq_refl eq_refl eq_refl)
    as (st' & n' & Hrun & Himg & _ & _ & _ & Hpreview).
  exists st', n'. split; [exact Hrun|]. split; [exact Himg|exact Hpreview].
Defined.

(** The sixth tile, opened and clicked at the start of 2026. *)
Lemma openTileModal_then_upload_click_witness :
  exists st1,
    openTileModal ref_host (fun k => new_year_2026 + Z.of_nat k) Upload tile_06
      {| page := initial_state; reads := 0 |}
      = Ok tt {| page := st1; reads := 1 |}
    /\ modalUploadBtn_disabled (modal st1) = false
    /\ modalUploadBtn_click ref_host (fun k => new_year_2026 + Z.of_nat k)
         TILES_app {| page := st1; reads := 1 |}
       = Ok tt
           {| page := set_filePicker
                        {| picker_value := EmptyString; picker_clicks := 1 |} st1;
              reads := 2 |}.
Proof.
  destruct (openTileModal_then_upload_click ref_host
              (fun k => new_year_2026 + Z.of_nat k) TILES_app tile_06
              initial_state 0 (ticking_monotone new_year_2026) eq_refl eq_refl)
    as (st1 & Hopen & _ & _ & Hdisabled & Hclick).
  exists st1. split; [exact Hopen|]. split; [exact Hdisabled|].
  exact (Hclick eq_refl).
Defined.

(** The first render of the configured tiles. *)
Lemma track_shape_witness :
  tile_row TILES_app
    (trackRow (after_render ref_host Upload TILES_app new_year_2025 initial_state)).
Proof.
  exact (proj1 (track_shape ref_host Upload (frozen new_year_2025) TILES_app 1
                  {| page := initial_state; reads := 0 |}
                  {| page := after_render ref_host Upload TILES_app new_year_2025
                               initial_state;
                     reads := 2 |})
           ltac:(vm_compute; reflexivity)).
Defined.

(** Two tiles revealed, the third locked: the jump goes to the third. *)
Lemma jumpNextBtn_click_target_witness :
  exists target,
    jumpNextBtn_click ref_host (frozen 1766430000000) TILES_app
      {| page := after_render ref_host Upload TILES_app 1766430000000 initial_state;
         reads := 0 |}
      = Ok target
          {| page := after_render ref_host Upload TILES_app 1766430000000
                       initial_state;
             reads := 1 |}.
Proof.
  destruct (jumpNextBtn_click_target ref_host (frozen 1766430000000) TILES_app
              (after_render ref_host Upload TILES_app 1766430000000 initial_state)
              0 (tile_row_after_render _ _ _ _ _) distinct_ids_app
              nonempty_ids_app) as (target & Hrun & _).
  exists target. exact Hrun.
Defined.

(** A tick one second after a render at the start of 2025, all tiles
    still locked. *)
Lemma updateCountdowns_between_reveals_witness :
  updateCountdowns ref_host (frozen (new_year_2025 + 1000)) TILES_app Upload 0
    {| page := after_render ref_host Upload TILES_app new_year_2025 initial_state;
       reads := 0 |}
  = Ok tt
      {| page := set_trackRow
                   (map (ticked_tile ref_host Upload new_year_2025
                           (new_year_2025 + 1000) ∅) TILES_app)
                   (after_render ref_host Upload TILES_app new_year_2025
                      initial_state);
         reads := 1 |}.
Proof.
  exact (updateCountdowns_between_reveals ref_host Upload
           (frozen (new_year_2025 + 1000)) TILES_app new_year_2025 new_year_2025 0
           (after_render ref_host Upload TILES_app new_year_2025 initial_state) 0
           distinct_ids_app eq_refl
           (none_dueb_none_due ref_host TILES_app new_year_2025
              (new_year_2025 + 1000) ltac:(vm_compute; reflexivity))).
Defined.

(** A tick at the start of 2026 on a track rendered a year earlier: every
    tile has become due. *)
Lemma updateCountdowns_as_fresh_render_witness :
  exists st' n',
    updateCountdowns ref_host (frozen new_year_2026) TILES_app Upload 1
      {| page := after_render ref_host Upload TILES_app new_year_2025 initial_state;
         reads := 0 |}
      = Ok tt {| page := st'; reads := n' |}
    /\ trackRow st' = map (rendered_tile ref_host Upload new_year_2026 ∅) TILES_app.
Proof.
  destruct (updateCountdowns_as_fresh_render ref_host Upload (frozen new_year_2026)
              TILES_app new_year_2025 new_year_2026 0
              (after_render ref_host Upload TILES_app new_year_2025 initial_state) 0
              distinct_ids_app ltac:(vm_compute; discriminate)
              eq_refl eq_refl eq_refl eq_refl)
    as (st' & n' & Hrun & Hrow & _).
  exists st', n'. split; [exact Hrun|exact Hrow].
Defined.


(** The tile for the new year, revealed, before its twin of the same id,
    still locked. *)
Lemma renderTrack_shared_id_diverges_witness :
  exists w,
    renderTrack ref_host (frozen new_year_2025) [tile_new_year; tile_twin]
      Upload 5 {| page := initial_state; reads := 0 |}
      = OutOfFuel w.
Proof.
  exact (renderTrack_shared_id_diverges ref_host Upload (frozen new_year_2025)
           tile_new_year tile_twin [tile_twin] 5 initial_state 0
           (list_elem_of_here _ _) eq_refl
           (fun _ _ => eq_refl) (fun _ _ => eq_refl)).
Defined.
